(** * mwa_qa: calibration-solution store and metrics engine

    A shallow embedding of [mwa_qa/read_calfits.py] (class [CalFits]) and
    [mwa_qa/cal_metrics.py] (class [CalMetrics]), with the properties of the
    specification stated and settled against it.

    Numbers.  The complex gains are embedded as Gaussian rationals whose real
    and imaginary parts may each be NaN ([xnum := option Qc]); arithmetic is
    exact, so rounding of float64 is idealised away, and NaN propagates
    through every operation as in IEEE 754.  The real-valued statistics of
    the metrics engine (median, modified z-score, skewness) depend on the
    IEEE special values (x/0 = inf, 0/0 = NaN, comparisons with NaN are
    false), so they are embedded over binary64 itself ([PrimFloat]).

    Python.  Exceptions are an explicit result type; an instance is its
    attribute dictionary, so that reading an attribute that [__init__] never
    set raises [AttributeError] as it does in Python; numpy arrays live in a
    heap of array objects, so that a copy is a new object. *)

From Stdlib Require Import String ZArith List Bool Lia Arith.
From Stdlib Require Import QArith Qcanon.
From Stdlib Require Import Floats.
From Stdlib Require Import Sorted.
Import ListNotations.

Set Implicit Arguments.

(** ** Python: exceptions, sequences, attribute dictionaries *)

Module Py.

Inductive exn : Type :=
| AttributeError (attr : string)
| IndexError
| AssertionError
| ValueError
| TypeError
| KeyError (key : string)
| ZeroDivisionError
| LinAlgError.

Inductive result (A : Type) : Type :=
| Ok (a : A)
| Raise (e : exn).

Arguments Ok {A} a.
Arguments Raise {A} e.

Definition bind {A B} (m : result A) (k : A -> result B) : result B :=
  match m with
  | Ok a => k a
  | Raise e => Raise e
  end.

Definition fmap {A B} (f : A -> B) (m : result A) : result B :=
  bind m (fun a => Ok (f a)).

(** [for x in xs: ys.append(f(x))], stopping at the first exception. *)
Fixpoint mapM {A B} (f : A -> result B) (xs : list A) : result (list B) :=
  match xs with
  | [] => Ok []
  | x :: xs' =>
      bind (f x) (fun y => bind (mapM f xs') (fun ys => Ok (y :: ys)))
  end.

(** [l[i]] on a list or along the first axis of an array: a negative index
    counts from the end, an index outside [-len, len) raises IndexError. *)
Definition getitem {A} (l : list A) (i : Z) : result A :=
  let n := Z.of_nat (length l) in
  let j := if (i <? 0)%Z then (i + n)%Z else i in
  if ((j <? 0) || (n <=? j))%Z then Raise IndexError
  else match nth_error l (Z.to_nat j) with
       | Some x => Ok x
       | None => Raise IndexError
       end.

(** [range(n)] *)
Definition range (n : nat) : list Z := map Z.of_nat (seq 0 n).

End Py.

Export Py.

Declare Scope py_scope.
Delimit Scope py_scope with py.
Notation "x <- m ;; k" := (Py.bind m (fun x => k))
  (at level 61, m at next level, right associativity) : py_scope.
Open Scope py_scope.

(** ** Numbers: NaN-aware exact reals and complex numbers *)

Module Num.

(** A real component of a complex128: a rational, or NaN. *)
Definition xnum : Type := option Qc.

Definition xnan : xnum := None.
Definition xof (q : Qc) : xnum := Some q.

Definition xlift2 (f : Qc -> Qc -> Qc) (a b : xnum) : xnum :=
  match a, b with
  | Some x, Some y => Some (f x y)
  | _, _ => None
  end.

Definition xadd : xnum -> xnum -> xnum := xlift2 Qcplus.
Definition xsub : xnum -> xnum -> xnum := xlift2 Qcminus.
Definition xmul : xnum -> xnum -> xnum := xlift2 Qcmult.
Definition xdiv : xnum -> xnum -> xnum := xlift2 Qcdiv.
Definition xneg (a : xnum) : xnum := option_map Qcopp a.

Definition xisnan (a : xnum) : bool :=
  match a with
  | Some _ => false
  | None => true
  end.

Record complex : Type := Cx { re : xnum; im : xnum }.

Definition cnan : complex := Cx xnan xnan.
Definition c0 : complex := Cx (xof 0) (xof 0).
Definition c1 : complex := Cx (xof 1) (xof 0).
Definition cof (a b : Z) : complex :=
  Cx (xof (Q2Qc (inject_Z a))) (xof (Q2Qc (inject_Z b))).

Definition cadd (a b : complex) : complex :=
  Cx (xadd (re a) (re b)) (xadd (im a) (im b)).

Definition csub (a b : complex) : complex :=
  Cx (xsub (re a) (re b)) (xsub (im a) (im b)).

(** numpy's complex product: [(ar*br - ai*bi) + (ar*bi + ai*br)j]. *)
Definition cmul (a b : complex) : complex :=
  Cx (xsub (xmul (re a) (re b)) (xmul (im a) (im b)))
     (xadd (xmul (re a) (im b)) (xmul (im a) (re b))).

(** [np.conj] *)
Definition conj (a : complex) : complex := Cx (re a) (xneg (im a)).

(** [np.isnan] on a complex number: either part is NaN. *)
Definition isnan (a : complex) : bool := xisnan (re a) || xisnan (im a).

Definition cfinite (a : complex) : bool := negb (isnan a).

(** Is a finite complex number zero? *)
Definition ciszero (a : complex) : bool :=
  match re a, im a with
  | Some x, Some y => Qc_eq_bool x 0 && Qc_eq_bool y 0
  | _, _ => false
  end.

(** Exact quotient of finite complex numbers, [b] nonzero:
    [a * conj b / |b|^2]. *)
Definition cdiv (a b : complex) : complex :=
  let n := cmul a (conj b) in
  let d := xadd (xmul (re b) (re b)) (xmul (im b) (im b)) in
  Cx (xdiv (re n) d) (xdiv (im n) d).

Definition cneg (a : complex) : complex := Cx (xneg (re a)) (xneg (im a)).

End Num.

Export Num.

(** ** Jones matrices *)

Module Jones.

(** The last axis of the gain array: the four polarisation products of one
    (timeblock, antenna, channel).  [reshape((2, 2))] reads it as the matrix
    [[XX, XY], [YX, YY]]. *)
Record jones : Type := J { XX : complex; XY : complex; YX : complex; YY : complex }.

Inductive pol : Type := pXX | pXY | pYX | pYY.

(** [pol_dict = {'XX': 0, 'XY': 1, 'YX': 2, 'YY': 3}], and the order of
    [range(_sh[3])]. *)
Definition pols : list pol := [pXX; pXY; pYX; pYY].

Definition get (p : pol) (m : jones) : complex :=
  match p with
  | pXX => XX m
  | pXY => XY m
  | pYX => YX m
  | pYY => YY m
  end.

Definition set (p : pol) (v : complex) (m : jones) : jones :=
  match p with
  | pXX => J v (XY m) (YX m) (YY m)
  | pXY => J (XX m) v (YX m) (YY m)
  | pYX => J (XX m) (XY m) v (YY m)
  | pYY => J (XX m) (XY m) (YX m) v
  end.



Definition jforall (f : complex -> bool) (m : jones) : bool :=
  f (XX m) && f (XY m) && f (YX m) && f (YY m).

Definition jidentity : jones := J c1 c0 c0 c1.
Definition jnan : jones := J cnan cnan cnan cnan.
Definition jzeros : jones := J c0 c0 c0 c0.

(** Every entry a number. *)
Definition jfinite : jones -> bool := jforall cfinite.

(** Every entry NaN in both parts: the form of a flagged entry. *)
Definition jflagged (m : jones) : bool :=
  jforall (fun c => xisnan (re c) && xisnan (im c)) m.

Definition det (m : jones) : complex :=
  csub (cmul (XX m) (YY m)) (cmul (XY m) (YX m)).

(** [np.linalg.inv] on a 2x2 complex matrix, in exact arithmetic.  A
    matrix of numbers is inverted exactly, and one whose determinant is
    zero raises LinAlgError.  A matrix that is NaN throughout (a flagged
    entry) has no zero pivot: no error is raised and the result is NaN
    throughout.  Where NaN and numbers are mixed in one matrix the
    outcome of the factorisation depends on where the NaN stands; it is
    taken as NaN throughout here.  The routine in binary64 rounds, and
    decides by its pivots whether a matrix is singular: the properties
    that rest on the values of [inv] are stated for the identity, for
    NaN throughout and for the small matrices of [Sample]; what
    holds whenever the routine raises is stated over an arbitrary
    inversion, see [_normalized_data_over]. *)
Definition inv (m : jones) : result jones :=
  if jfinite m then
    let d := det m in
    if ciszero d then Raise LinAlgError
    else Ok (J (cdiv (YY m) d) (cdiv (cneg (XY m)) d)
               (cdiv (cneg (YX m)) d) (cdiv (XX m) d))
  else Ok jnan.

(** [a.reshape((2, 2)).dot(b)] *)
Definition dot (a b : jones) : jones :=
  J (cadd (cmul (XX a) (XX b)) (cmul (XY a) (YX b)))
    (cadd (cmul (XX a) (XY b)) (cmul (XY a) (YY b)))
    (cadd (cmul (YX a) (XX b)) (cmul (YY a) (YX b)))
    (cadd (cmul (YX a) (XY b)) (cmul (YY a) (YY b))).

End Jones.

Export Jones.

(** ** The calibration-solution store: class [CalFits] *)

Module CalFits.

(** [gain_array]: complex, of shape (Ntime, Nant, Nchan, 4). *)
Definition Tile : Type := list jones.            (* (Nchan, 4) *)
Definition Timeblock : Type := list Tile.        (* (Nant, Nchan, 4) *)
Definition GainArray : Type := list Timeblock.

(** numpy arrays are objects: a heap of them, addressed by position.
    A new array is appended, so an address is never reused. *)
Definition loc : Type := nat.
Definition heap : Type := list GainArray.

Inductive value : Type :=
| VNone
| VBool (b : bool)
| VInt (z : Z)
| VInts (l : list Z)
| VStrs (l : list string)
| VArray (l : loc).

(** An instance: its attribute dictionary, latest binding first. *)
Definition obj : Type := list (string * value).

Fixpoint getattr (self : obj) (name : string) : result value :=
  match self with
  | [] => Raise (AttributeError name)
  | (k, v) :: rest => if String.eqb k name then Ok v else getattr rest name
  end.

Definition setattr (self : obj) (name : string) (v : value) : obj :=
  (name, v) :: self.

Definition as_int (v : value) : result Z :=
  match v with
  | VInt z => Ok z
  | _ => Raise TypeError
  end.

Definition as_ints (v : value) : result (list Z) :=
  match v with
  | VInts l => Ok l
  | _ => Raise TypeError
  end.

Definition as_array (v : value) : result loc :=
  match v with
  | VArray l => Ok l
  | _ => Raise TypeError
  end.

(** *** State passing over the heap.  An exception leaves the heap as it
    was when it was raised. *)
Definition M (A : Type) : Type := heap -> result A * heap.

Definition ret {A} (a : A) : M A := fun h => (Ok a, h).

Definition bindM {A B} (m : M A) (k : A -> M B) : M B :=
  fun h =>
    match m h with
    | (Ok a, h') => k a h'
    | (Raise e, h') => (Raise e, h')
    end.

Definition lift {A} (r : result A) : M A := fun h => (r, h).

(** The array object at an address. *)
Definition deref (l : loc) : M GainArray :=
  fun h =>
    match nth_error h l with
    | Some a => (Ok a, h)
    | None => (Raise TypeError, h)
    end.

(** [copy.deepcopy(a)]: a new array object with the same contents. *)
Definition deepcopy (l : loc) : M loc :=
  fun h =>
    match nth_error h l with
    | Some a => (Ok (length h), h ++ [a])
    | None => (Raise TypeError, h)
    end.

Fixpoint update {A} (l : list A) (n : nat) (x : A) : list A :=
  match l, n with
  | [], _ => []
  | _ :: l', O => x :: l'
  | y :: l', S n' => y :: update l' n' x
  end.

(** [a[t] = row] on the array object at [l]: the values of [row] are
    copied into row [t] of that object, in place. *)
Definition setitem (l : loc) (t : Z) (row : Timeblock) : M unit :=
  fun h =>
    match nth_error h l with
    | Some a =>
        match getitem a t with
        | Ok _ =>
            let n := Z.of_nat (length a) in
            let j := Z.to_nat (if (t <? 0)%Z then (t + n)%Z else t) in
            (Ok tt, update h l (update a j row))
        | Raise e => (Raise e, h)
        end
    | None => (Raise TypeError, h)
    end.

(** [for x in xs: body(x)] *)
Fixpoint for_ {A} (xs : list A) (body : A -> M unit) : M unit :=
  match xs with
  | [] => ret tt
  | x :: xs' => bindM (body x) (fun _ => for_ xs' body)
  end.

Notation "x <~ m ;; k" := (bindM m (fun x => k))
  (at level 61, m at next level, right associativity) : py_scope.

(** *** The TILES table of the container *)

Record tile_row : Type :=
  { t_antenna : Z; t_tilename : string; t_flag : Z }.

Record tile_table : Type :=
  { tile_fields : list string;      (* hdu_fields(tile_hdu.header) *)
    tile_data : list tile_row }.    (* tile_hdu.data *)

Record hdus : Type :=
  { SOLUTIONS : GainArray;          (* real and imaginary parts joined *)
    TILES : tile_table }.

Definition has_field (name : string) (fields : list string) : bool :=
  existsb (String.eqb name) fields.

(** Lines 63-72 of [__init__]: a column that is absent leaves its
    attribute unset. *)
Definition init_tiles (tile_hdu : tile_table) (self : obj) : obj :=
  let self :=
    if has_field "Antenna" (tile_fields tile_hdu)
    then setattr self "antenna" (VInts (map t_antenna (tile_data tile_hdu)))
    else self in
  let self :=
    if has_field "TileName" (tile_fields tile_hdu)
    then setattr self "tilename" (VStrs (map t_tilename (tile_data tile_hdu)))
    else self in
  if has_field "Flag" (tile_fields tile_hdu)
  then setattr self "antenna_flags" (VInts (map t_flag (tile_data tile_hdu)))
  else self.

(** A row of the table is unflagged when its flag is 0. *)
Definition unflagged (r : tile_row) : bool := (t_flag r =? 0)%Z.

(** [gains_ind_for]: the index is the antenna number itself. *)
Definition gains_ind_for (antnum : Z) : Z := antnum.

(** [_check_refant].  It reads the attribute [antenna_flag]. *)
Definition _check_refant (self : obj) : result unit :=
  r <- getattr self "ref_antenna" ;;
  ref_antenna <- as_int r ;;
  let ind := gains_ind_for ref_antenna in
  f <- getattr self "antenna_flag" ;;
  flags <- as_ints f ;;
  flag <- getitem flags ind ;;
  if (flag =? 0)%Z then Ok tt else Raise AssertionError.

(** [_iterate_refant]: the [while anindex < 0] loop, one iteration per
    unit of fuel; [None] when the fuel runs out before the loop ends. *)
Fixpoint _iterate_refant_loop (fuel : nat) (self : obj) (anindex : Z)
  : option (result Z) :=
  match fuel with
  | O => None
  | S fuel' =>
      if (anindex <? 0)%Z then
        match (f <- getattr self "antenna_flags" ;;
               flags <- as_ints f ;;
               getitem flags anindex) with
        | Raise e => Some (Raise e)
        | Ok flag =>
            if (flag =? 0)%Z
            then Some (a <- getattr self "antenna" ;;
                       antenna <- as_ints a ;;
                       getitem antenna anindex)
            else _iterate_refant_loop fuel' self (anindex - 1)
        end
      else Some (a <- getattr self "antenna" ;;
                 antenna <- as_ints a ;;
                 getitem antenna anindex)
  end.

Definition _iterate_refant (fuel : nat) (self : obj) : option (result Z) :=
  _iterate_refant_loop fuel self (-1).

(** *** Well-formed gain arrays.  A numpy array is rectangular, and an
    entry of the gain array is a matrix of numbers or, when its antenna
    or channel is flagged, NaN throughout. *)
Definition jvalid (m : jones) : bool := jfinite m || jflagged m.

Definition rectangular (data : Timeblock) : bool :=
  forallb (fun tile : Tile => (length tile =? length (hd [] data))%nat) data.

Definition valid_timeblock (data : Timeblock) : bool :=
  rectangular data && forallb (forallb jvalid) data.

Definition valid_gain_array (a : GainArray) : bool :=
  forallb valid_timeblock a.

(** [data.shape] of a (Nant, Nchan, 4) array. *)
Definition shape (data : Timeblock) : nat * nat :=
  (length data, length (hd [] data)).

Fixpoint rows {A} (n m : nat) (l : list A) : list (list A) :=
  match n with
  | O => []
  | S n' => firstn m l :: rows n' m (skipn m l)
  end.

(** [np.array(div_ref).reshape(data.shape)]: the flat list of 2x2 matrices
    regrouped as (Nant, Nchan, 4); the sizes must agree. *)
Definition reshape (sh : nat * nat) (l : list jones) : result Timeblock :=
  if (length l =? fst sh * snd sh)%nat then Ok (rows (fst sh) (snd sh) l)
  else Raise ValueError.

Definition attr_array (self : obj) (name : string) : M loc :=
  lift (v <- getattr self name ;; as_array v).

(** *** Normalization.  What [np.linalg.inv] returns and when it raises
    is LAPACK's matter (an LU factorisation in binary64, LinAlgError on a
    zero pivot).  The two functions are written over any inversion
    [linalg_inv]; below they are taken at [Jones.inv]. *)
Section LinalgInv.

Variable linalg_inv : jones -> result jones.

(** [_normalized_data] *)
Definition _normalized_data_over (self : obj) (data : Timeblock)
  : result Timeblock :=
  r <- getattr self "ref_antenna" ;;
  ref_antenna <- as_int r ;;
  let ref_ind := gains_ind_for ref_antenna in
  ref_tile <- getitem data ref_ind ;;
  refs <- mapM linalg_inv ref_tile ;;
  let div_ref :=
    flat_map (fun tile_i =>
                map (fun '(i, ref) => dot i ref) (combine tile_i refs))
             data in
  reshape (shape data) div_ref.

(** [normalized_gains] *)
Definition normalized_gains_over (self : obj) : M loc :=
  g <~ attr_array self "gain_array" ;;
  ngains <~ deepcopy g ;;
  a <~ deref ngains ;;
  _ <~ for_ (range (length a))
         (fun t =>
            g' <~ attr_array self "gain_array" ;;
            src <~ deref g' ;;
            data <~ lift (getitem src t) ;;
            row <~ lift (_normalized_data_over self data) ;;
            setitem ngains t row) ;;
  ret ngains.

End LinalgInv.

(** [_normalized_data] and [normalized_gains] with the exact inversion. *)
Definition _normalized_data : obj -> Timeblock -> result Timeblock :=
  _normalized_data_over inv.

Definition normalized_gains : obj -> M loc := normalized_gains_over inv.

(** [__init__], as far as the reference antenna and the normalization go
    (lines 55, 60, 63-72, 85-93).  The array expression of line 55 makes
    a new array object.  [None]: the reference-antenna scan ran out of
    fuel. *)
Definition __init__ (fuel : nat) (hd : hdus) (norm : bool)
           (ref_antenna : option Z) : heap -> option (result obj * heap) :=
  fun h =>
    let (g, h) := (length h, h ++ [SOLUTIONS hd]) in
    let self := setattr [] "gain_array" (VArray g) in
    let self := setattr self "Ntime" (VInt (Z.of_nat (length (SOLUTIONS hd)))) in
    let self := init_tiles (TILES hd) self in
    let self := setattr self "norm" (VBool norm) in
    let finish (self : obj) : option (result obj * heap) :=
      match normalized_gains self h with
      | (Ok ng, h') => Some (Ok (setattr self "gain_array" (VArray ng)), h')
      | (Raise e, h') => Some (Raise e, h')
      end in
    if norm then
      match ref_antenna with
      | None =>
          match _iterate_refant fuel self with
          | None => None
          | Some (Raise e) => Some (Raise e, h)
          | Some (Ok r) => finish (setattr self "ref_antenna" (VInt r))
          end
      | Some r =>
          let self := setattr self "ref_antenna" (VInt r) in
          match _check_refant self with
          | Raise e => Some (Raise e, h)
          | Ok _ => finish self
          end
      end
    else Some (Ok self, h).

(** [gains_for_antnum]: [self.gain_array[:, ind, :, :]] *)
Definition gains_for_antnum (self : obj) (antnum : Z) : M (list Tile) :=
  let ind := gains_ind_for antnum in
  g <~ attr_array self "gain_array" ;;
  a <~ deref g ;;
  lift (mapM (fun tb : Timeblock => getitem tb ind) a).

Definition map2 {A B C} (f : A -> B -> C) (l : list A) (l' : list B)
  : list C :=
  map (fun '(x, y) => f x y) (combine l l').





End CalFits.

(** ** The delay transform: [gains_fft] *)

Module Spectral.

Import CalFits.

(** [np.nan] stored into a complex array: NaN + 0j. *)
Definition np_nan : complex := Cx xnan (xof 0).

(** A complex sample times a real window sample. *)
Definition window_mul (x : complex) (w : xnum) : complex :=
  cmul x (Cx w (xof 0)).

(** [np.where(cond)[0]], the positions counted from [s]. *)
Fixpoint where_from {A} (s : nat) (cond : A -> bool) (l : list A) : list nat :=
  match l with
  | [] => []
  | x :: l' =>
      if cond x then s :: where_from (S s) cond l'
      else where_from (S s) cond l'
  end.

(** [_filter_nans] *)
Definition _filter_nans (data : list complex) : list nat * list nat :=
  (where_from 0 (fun c => negb (isnan c)) data, where_from 0 isnan data).

(** [a[inds]] with an index array: IndexError out of range. *)
Definition take {A} (l : list A) (inds : list nat) : result (list A) :=
  mapM (fun k => match nth_error l k with
                 | Some x => Ok x
                 | None => Raise IndexError
                 end) inds.

(** [np.fft.fftshift]: the last [n // 2] entries go to the front. *)
Definition fftshift {A} (d : list A) : list A :=
  let n := length d in
  skipn (n - n / 2) d ++ firstn (n - n / 2) d.

Fixpoint put {A} (out : list A) (inds : list nat) (vals : list A) : list A :=
  match inds, vals with
  | k :: inds', v :: vals' => put (update out k v) inds' vals'
  | _, _ => out
  end.

(** [out[inds] = vals]: as many values as indices, or ValueError. *)
Definition setitem_inds {A} (out : list A) (inds : list nat) (vals : list A)
  : result (list A) :=
  if (length inds =? length vals)%nat then Ok (put out inds vals)
  else Raise ValueError.

(** [out[inds] = v] *)
Definition fill_inds {A} (out : list A) (inds : list nat) (v : A) : list A :=
  fold_left (fun o k => update o k v) inds out.

(** [a.shape] without the last axis of 4. *)
Definition shape3 (a : GainArray) : nat * nat * nat :=
  (length a, length (hd [] a), length (hd [] (hd [] a))).

(** [np.zeros(_sh)] *)
Definition zeros (sh : nat * nat * nat) : GainArray :=
  let '(n0, n1, n2) := sh in repeat (repeat (repeat jzeros n2) n1) n0.

Definition at_ {A} (l : list A) (k : nat) : result A :=
  match nth_error l k with
  | Some x => Ok x
  | None => Raise IndexError
  end.

(** [a[t, i, :, j]] *)
Definition slice (a : GainArray) (t i : nat) (j : pol) : result (list complex) :=
  tb <- at_ a t ;; tile <- at_ tb i ;; Ok (map (get j) tile).

(** [a[t, i, :, j] = vals], in place. *)
Definition set_slice (a : GainArray) (t i : nat) (j : pol)
           (vals : list complex) : result GainArray :=
  tb <- at_ a t ;;
  tile <- at_ tb i ;;
  if (length vals =? length tile)%nat
  then Ok (update a t (update tb i (map2 (fun m v => set j v m) tile vals)))
  else Raise ValueError.

Fixpoint foldM {K S} (step : K -> S -> result S) (ks : list K) (s : S)
  : result S :=
  match ks with
  | [] => Ok s
  | k :: ks' => s' <- step k s ;; foldM step ks' s'
  end.

(** The transformed values laid back on the channels of [data]: a NaN
    channel gets NaN, the k-th other channel gets the k-th value. *)
Fixpoint scatter (data vals : list complex) : list complex :=
  match data with
  | [] => []
  | x :: data' =>
      if isnan x then np_nan :: scatter data' vals
      else match vals with
           | v :: vals' => v :: scatter data' vals'
           | [] => np_nan :: scatter data' []
           end
  end.

(** The entries of [l] at the channels where [data] is not NaN. *)
Fixpoint select {A} (data : list complex) (l : list A) : list A :=
  match data, l with
  | x :: data', y :: l' =>
      if isnan x then select data' l' else y :: select data' l'
  | _, _ => []
  end.

(** [put] and [fill_inds] at the positions that [where_from] lists, read
    off the data: the values go to the channels that hold a number, [v] goes
    to the NaN channels. *)
Fixpoint put_nums (data out vals : list complex) : list complex :=
  match data, out with
  | x :: data', o :: out' =>
      if isnan x then o :: put_nums data' out' vals
      else match vals with
           | v :: vals' => v :: put_nums data' out' vals'
           | [] => o :: out'
           end
  | _, _ => out
  end.

Fixpoint fill_nans (data out : list complex) (v : complex) : list complex :=
  match data, out with
  | x :: data', o :: out' =>
      (if isnan x then v else o) :: fill_nans data' out' v
  | _, _ => out
  end.

(** An array of shape (n0, n1, n2, 4). *)
Definition has_shape (sh : nat * nat * nat) (a : GainArray) : Prop :=
  length a = fst (fst sh) /\
  Forall (fun tb : Timeblock =>
            length tb = snd (fst sh) /\
            Forall (fun tile : Tile => length tile = snd sh) tb) a.

Section GainsFft.

(** [scipy.signal.windows.blackmanharris(n)]: [n] real samples. *)
Variable blackmanharris : nat -> list xnum.

(** [np.fft.fft] of a 1-D array that is not empty. *)
Variable fft : list complex -> list complex.

(** [np.fft.fft]: no data points, ValueError. *)
Definition np_fft (x : list complex) : result (list complex) :=
  match x with
  | [] => Raise ValueError
  | _ => Ok (fft x)
  end.

(** The body of the loops on one slice: the [try] block, and the
    [except ValueError] that sets the slice to NaN.  [out] is the slice of
    [fft_data] it writes to. *)
Definition fft_slice (window : list xnum) (data out : list complex)
  : result (list complex) :=
  match (let '(nonans_inds, nans_inds) := _filter_nans data in
         g <- take data nonans_inds ;;
         w <- take window nonans_inds ;;
         d_fft <- np_fft (map2 window_mul g w) ;;
         out1 <- setitem_inds out nonans_inds (fftshift d_fft) ;;
         Ok (fill_inds out1 nans_inds np_nan))
  with
  | Raise ValueError => Ok (map (fun _ => np_nan) out)
  | r => r
  end.

Definition fft_step (a : GainArray) (window : list xnum) (t i : nat) (j : pol)
           (fft_data : GainArray) : result GainArray :=
  data <- slice a t i j ;;
  out <- slice fft_data t i j ;;
  new <- fft_slice window data out ;;
  set_slice fft_data t i j new.

(** [gains_fft]; [nfreq] is [len(self.frequency_array)]. *)
Definition gains_fft (a : GainArray) (nfreq : nat) : result GainArray :=
  let _sh := shape3 a in
  let fft_data := zeros _sh in
  let window := blackmanharris nfreq in
  foldM (fun t =>
           foldM (fun i => foldM (fun j => fft_step a window t i j) pols)
                 (seq 0 (snd (fst _sh))))
        (seq 0 (fst (fst _sh))) fft_data.

(** What the transform of one slice is to be: NaN throughout when no
    channel holds a number, else the shifted transform of the windowed
    numbers, laid back on their channels. *)
Definition spectrum (window : list xnum) (data : list complex) : list complex :=
  let nums := select data data in
  match nums with
  | [] => map (fun _ => np_nan) data
  | _ => scatter data (fftshift (fft (map2 window_mul nums (select data window))))
  end.

(** The transform of one slice as the specification words it: the
    window is applied to the non-NaN subsequence, that is, a window of
    the length of the subsequence is made and multiplied into it. *)
Definition spectrum_as_specified (data : list complex) : list complex :=
  let nums := select data data in
  match nums with
  | [] => map (fun _ => np_nan) data
  | _ =>
      scatter data
        (fftshift (fft (map2 window_mul nums (blackmanharris (length nums)))))
  end.

End GainsFft.

(** The exact discrete Fourier transform of one or two points (the
    twiddle factors are 1 and -1); longer inputs are not transformed. *)
Definition dft2 (x : list complex) : list complex :=
  match x with
  | [a; b] => [cadd a b; csub a b]
  | _ => x
  end.

(** The binary64 number that scipy computes for the first and the last
    sample of a Blackman-Harris window, 0.35875 - 0.48829 + 0.14128 -
    0.01168 summed in this order: 0x1.f75104d551ep-15, printed
    6.0000000000001025e-05. *)
Definition bh_edge : Qc := Q2Qc (17293822569103 # 288230376151711744).

(** [blackmanharris(n)] for n up to 3, as scipy returns it: [],
    [1.], [edge, edge], [edge, 1., edge].  The samples of a longer
    window are not tabulated here: above 3 only the length and the two
    edge samples are scipy's. *)
Definition blackmanharris3 (n : nat) : list xnum :=
  let edge := xof bh_edge in
  match n with
  | 0 => []
  | 1 => [xof 1]
  | 2 => [edge; edge]
  | _ => edge :: repeat (xof 1) (n - 2) ++ [edge]
  end%nat.

End Spectral.

(** ** Positional maps *)

Module Seq.

(** [f s x0 :: f (s + 1) x1 :: ...] *)
Fixpoint imap_from {A B} (s : nat) (f : nat -> A -> B) (l : list A) : list B :=
  match l with
  | [] => []
  | x :: l' => f s x :: imap_from (S s) f l'
  end.

End Seq.

(** ** Real statistics over binary64: the numpy reductions the metrics use

    Sums are taken left to right.  numpy sums a long contiguous axis
    pairwise; the two orders agree whenever the partial sums are exact. *)

Module Stat.

Local Open Scope float_scope.

Definition of_nat (n : nat) : float := PrimFloat.of_uint63 (Uint63.of_Z (Z.of_nat n)).

(** [np.sum] *)
Definition sum (xs : list float) : float :=
  match xs with
  | [] => 0
  | x :: xs' => fold_left PrimFloat.add xs' x
  end.

(** The NaN entries replaced by 0, and the number of the others. *)
Definition replace_nan (xs : list float) : list float :=
  map (fun x => if PrimFloat.is_nan x then 0 else x) xs.

Definition count (xs : list float) : nat :=
  length (filter (fun x => negb (PrimFloat.is_nan x)) xs).

(** [np.nanmean]: NaN when nothing is left to average. *)
Definition nanmean (xs : list float) : float :=
  sum (replace_nan xs) / of_nat (count xs).

(** [np.nanvar] *)
Definition nanvar (xs : list float) : float :=
  let avg := nanmean xs in
  let arr := map (fun x => if PrimFloat.is_nan x then 0 else x - avg) xs in
  sum (map (fun d => d * d) arr) / of_nat (count xs).

(** [np.nanstd] *)
Definition nanstd (xs : list float) : float := PrimFloat.sqrt (nanvar xs).

Fixpoint insert (x : float) (l : list float) : list float :=
  match l with
  | [] => [x]
  | y :: l' => if x <=? y then x :: l else y :: insert x l'
  end.

Definition sort (l : list float) : list float := fold_right insert [] l.

(** [np.nanmedian]: the middle of the sorted non-NaN entries, the mean of
    the two middle ones when their number is even, NaN when there is
    none. *)
Definition nanmedian (xs : list float) : float :=
  let s := sort (filter (fun x => negb (PrimFloat.is_nan x)) xs) in
  let n := length s in
  match n with
  | O => nan
  | _ =>
      if Nat.odd n then nth (n / 2) s nan
      else (nth (n / 2 - 1) s nan + nth (n / 2) s nan) / 2
  end.

(** [np.fmax]: the larger operand, a NaN operand being ignored. *)
Definition fmax (a b : float) : float :=
  if PrimFloat.is_nan a then b
  else if PrimFloat.is_nan b then a
  else if a <? b then b else a.

(** [np.nanmax]: [np.fmax.reduce]; a zero-size array raises ValueError,
    an all-NaN one gives NaN. *)
Definition nanmax (xs : list float) : result float :=
  match xs with
  | [] => Raise ValueError
  | x :: xs' => Ok (fold_left fmax xs' x)
  end.

(** A reduction along axis 1 of a (n, m, k) array, giving (n, k). *)
Definition axis1 (k : nat) (f : list float -> float)
           (a : list (list (list float))) : list (list float) :=
  map (fun rows => map (fun p => f (map (fun r => nth p r nan) rows)) (seq 0 k))
      a.

(** A reduction along axis 0 of a (n, k) array, giving (k). *)
Definition axis0 {A} (k : nat) (f : list float -> A) (a : list (list float))
  : list A :=
  map (fun p => f (map (fun r => nth p r nan) a)) (seq 0 k).

(** [np.where(cond)[0]] *)
Fixpoint where_true (i : Z) (cond : list bool) : list Z :=
  match cond with
  | [] => []
  | b :: cond' =>
      if b then i :: where_true (i + 1) cond' else where_true (i + 1) cond'
  end.

Definition where_ (cond : list bool) : list Z := where_true 0 cond.

End Stat.

(** ** The metrics engine: class [CalMetrics] *)

Module CalMetrics.

Import Stat.
Local Open Scope float_scope.

(** What [skewness_across_uvcut] reads from the engine's collaborators.
    [Metafits] is not part of the sources at hand, and the complex arrays
    of [CalFits] reach the statistics only through float64 reductions;
    these are the values the engine receives from them. *)
Record engine : Type :=
  { (* self.CalFits.gain_array.shape[0] *)
    Ntime : nat;
    (* self.MetaFits.baselines_less_than(uv_cut) *)
    baselines_less_than : float -> list (Z * Z);
    (* np.nanvar(self.CalFits.gains_for_antpair(antpair), axis=1),
       of shape (Ntime, 4) *)
    variance_for_antpair : Z * Z -> list (list float) }.

(** *** Variances and skewness *)

Definition zeros3 (n m k : nat) : list (list (list float)) :=
  repeat (repeat (repeat 0 k) m) n.

(** [variances[:, i, :] = v]: [v] must have shape (n, 4). *)
Definition set_axis1 (variances : list (list (list float))) (i : nat)
           (v : list (list float)) : result (list (list (list float))) :=
  if (length v =? length variances)%nat
     && forallb (fun row => (length row =? 4)%nat) v
  then Ok (map (fun '(rows, row) => CalFits.update rows i row)
               (combine variances v))
  else Raise ValueError.

Fixpoint fill_variances (self : engine) (i : nat) (bls : list (Z * Z))
         (variances : list (list (list float)))
  : result (list (list (list float))) :=
  match bls with
  | [] => Ok variances
  | bl :: bls' =>
      variances' <- set_axis1 variances i (variance_for_antpair self bl) ;;
      fill_variances self (S i) bls' variances'
  end.

(** [variance_for_baselines_less_than] *)
Definition variance_for_baselines_less_than (self : engine) (uv_cut : float)
  : result (list (list (list float))) :=
  let baselines := baselines_less_than self uv_cut in
  let variances := zeros3 (Ntime self) (length baselines) 4 in
  fill_variances self 0 baselines variances.

(** Every pair's variance array has shape (Ntime, 4). *)
Definition variances_shaped (self : engine) (uv_cut : float) : bool :=
  forallb (fun bl =>
             (length (variance_for_antpair self bl) =? Ntime self)%nat
             && forallb (fun row => (length row =? 4)%nat)
                        (variance_for_antpair self bl))
          (baselines_less_than self uv_cut).

(** [3 * (vmean - vmedian) / vstd] *)
Definition pearson (vmean vmedian vstd : float) : float :=
  3 * (vmean - vmedian) / vstd.

(** [skewness_across_uvcut] *)
Definition skewness_across_uvcut (self : engine) (uv_cut : float)
  : result (list float) :=
  variances <- variance_for_baselines_less_than self uv_cut ;;
  let vmean := axis1 4 nanmean variances in
  let vmedian := axis1 4 nanmedian variances in
  let vstd := axis1 4 nanstd variances in
  let skewness :=
    CalFits.map2 (fun '(m, md) sd => CalFits.map2 (fun '(a, b) c => pearson a b c)
                                          (combine m md) sd)
                 (combine vmean vmedian) vstd in
  mapM (fun r => r) (axis0 4 nanmax skewness).

(** The per-pair variances of timeblock [t] and polarization [p] over the
    pairs below the cutoff, and the skewness entry computed from them. *)
Definition pair_variances (self : engine) (uv_cut : float) (t p : nat)
  : list float :=
  map (fun bl => nth p (nth t (variance_for_antpair self bl) []) nan)
      (baselines_less_than self uv_cut).

Definition skew_entry (self : engine) (uv_cut : float) (t p : nat) : float :=
  let v := pair_variances self uv_cut t p in
  pearson (nanmean v) (nanmedian v) (nanstd v).

(** The skewness as the specification words it: the per-pair variances
    averaged across the pairs, Pearson's coefficient of the averages
    across the timeblocks, the maximum over the polarizations. *)
Definition skewness_as_specified (self : engine) (uv_cut : float)
  : result float :=
  variances <- variance_for_baselines_less_than self uv_cut ;;
  let averaged := axis1 4 nanmean variances in
  let per_pol :=
    axis0 4 (fun v => pearson (nanmean v) (nanmedian v) (nanstd v)) averaged in
  nanmax per_pol.

(** *** Outliers by modified z-score (lines 176-182 and 187-192 of
    [run_metrics]) *)

Definition modz (x : list float) : list float :=
  let median := nanmedian x in
  let mad := nanmedian (map (fun v => PrimFloat.abs (v - median)) x) in
  map (fun v => (v - median) / mad) x.

Definition outliers (ant_threshold : float) (z : list float) : list Z :=
  where_ (map (fun v => (v <? -1 * ant_threshold) || (ant_threshold <? v)) z).

End CalMetrics.

(** ** Sample inputs *)

Module Sample.

Import CalFits.

(** Three tiles; antenna 0 is flagged, antennas 1 and 2 are not. *)
Definition tiles : tile_table :=
  {| tile_fields := ["Antenna"; "TileName"; "Flag"]%string;
     tile_data := [ {| t_antenna := 0; t_tilename := "Tile011"; t_flag := 1 |};
                    {| t_antenna := 1; t_tilename := "Tile012"; t_flag := 0 |};
                    {| t_antenna := 2; t_tilename := "Tile013"; t_flag := 1 |} ] |}.

(** The same table with every tile flagged. *)
Definition tiles_all_flagged : tile_table :=
  {| tile_fields := tile_fields tiles;
     tile_data := map (fun r => {| t_antenna := t_antenna r;
                                   t_tilename := t_tilename r;
                                   t_flag := 1 |}) (tile_data tiles) |}.

(** A Jones matrix of numbers, invertible: [[2, 1j], [0, 1]]. *)
Definition m_num : jones := J (cof 2 0) (cof 0 1) c0 c1.

(** A singular matrix of numbers: [[1, 2], [2, 4]]. *)
Definition m_singular : jones := J (cof 1 0) (cof 2 0) (cof 2 0) (cof 4 0).

(** One timeblock, three antennas, two channels; antenna 1 is the
    identity at both channels, antenna 0 is flagged at channel 1. *)
Definition gains_identity_ref : GainArray :=
  [ [ [m_num; jnan]; [jidentity; jidentity]; [m_singular; m_num] ] ].

(** Two timeblocks; in the second, antenna 1 is singular at channel 0
    and the identity at channel 1. *)
Definition gains_singular_ref : GainArray :=
  [ [ [m_num; m_num]; [jidentity; m_num]; [m_num; m_num] ];
    [ [m_num; m_num]; [m_singular; jidentity]; [m_num; m_num] ] ].

(** In the only timeblock antenna 1 is NaN at channel 0. *)
Definition gains_nan_ref : GainArray :=
  [ [ [m_num; m_num]; [jnan; m_num]; [m_singular; m_num] ] ].

(** One timeblock, two antennas, two channels; antenna 0 is NaN at
    channel 1 and antenna 1 is NaN at both channels. *)
Definition gains_two_channels : GainArray :=
  [ [ [m_num; jnan]; [jnan; jnan] ] ].

(** One timeblock, one antenna, three channels: numbers at the two
    edge channels, NaN in the middle. *)
Definition gains_edge_channels : GainArray :=
  [ [ [m_num; jnan; jidentity] ] ].

(** One timeblock, one antenna, three channels: a number at the first
    channel only. *)
Definition gains_first_channel : GainArray :=
  [ [ [jidentity; jnan; jnan] ] ].

(** An instance whose gain array is the array at address 0 and whose
    reference antenna is 1. *)
Definition self1 : obj :=
  setattr (setattr [] "gain_array" (VArray 0%nat)) "ref_antenna" (VInt 1).

End Sample.

Module SampleInit.

Import CalFits.

(** A container whose reference antenna 1 is the identity, with the tile
    table of [Sample.tiles]; in [hdus_flagged] every tile is flagged. *)
Definition hd : hdus :=
  {| SOLUTIONS := Sample.gains_identity_ref; TILES := Sample.tiles |}.

Definition hdus_flagged : hdus :=
  {| SOLUTIONS := Sample.gains_identity_ref;
     TILES := Sample.tiles_all_flagged |}.

End SampleInit.

Module SampleMetrics.

Import CalMetrics.
Local Open Scope float_scope.

(** Two timeblocks and three baselines below a cut of 100. *)
Definition eng : engine :=
  {| Ntime := 2;
     baselines_less_than :=
       fun cut => if cut <? 100 then [(0, 1); (0, 2); (1, 2)]%Z else [];
     variance_for_antpair :=
       fun '(a, b) =>
         if (a + b =? 1)%Z then [[1; 1; 1; 1]; [1; 1; 1; 2]]
         else if (a + b =? 2)%Z then [[2; 2; 2; 2]; [1; 1; 1; 2]]
         else [[6; 6; 6; 7]; [1; 1; 1; 2]] |}.

End SampleMetrics.

(** ** The field names of a table header: [hdu_fields] *)

From Stdlib Require DecimalString.

Module HduFields.

(** A header card holds an integer or a string. *)
Inductive card : Type :=
| CInt (z : Z)
| CStr (s : string).

Definition header : Type := list (string * card).

(** [hdr[key]]: KeyError when the keyword is absent. *)
Fixpoint hdr_get (hdr : header) (key : string) : result card :=
  match hdr with
  | [] => Raise (KeyError key)
  | (k, v) :: hdr' => if String.eqb k key then Ok v else hdr_get hdr' key
  end.

(** ['TTYPE{}'.format(fd)] *)
Definition ttype (fd : nat) : string :=
  "TTYPE" ++ DecimalString.NilZero.string_of_uint (Nat.to_uint fd).

(** What leaves the function: an exception of the [try] block that the
    handler does not catch, or the NameError of a name that is not
    defined. *)
Inductive raised : Type :=
| Exn (e : exn)
| NameError (name : string).

(** The [for] loop: the fields appended so far, and how the loop ended. *)
Fixpoint hdu_fields_loop (hdr : header) (fds : list nat) (fields : list card)
  : list card * result unit :=
  match fds with
  | [] => (fields, Ok tt)
  | fd :: fds' =>
      match hdr_get hdr (ttype fd) with
      | Ok v => hdu_fields_loop hdr fds' (fields ++ [v])
      | Raise e => (fields, Raise e)
      end
  end.

(** [hdu_fields].  [globals] are the names defined in the module; the
    handler of KeyError formats its warning with [hdu_name]. *)
Definition hdu_fields (globals : list string) (hdr : header)
  : list card + raised :=
  let '(fields, r) :=
    match hdr_get hdr "TFIELDS" with
    | Raise e => ([], Raise e)
    | Ok (CStr _) => ([], Raise TypeError)
    | Ok (CInt nfield) => hdu_fields_loop hdr (seq 1 (Z.to_nat nfield)) []
    end in
  match r with
  | Ok _ => inl fields
  | Raise (KeyError _) =>
      if existsb (String.eqb "hdu_name") globals then inl fields
      else inr (NameError "hdu_name")
  | Raise e => inr (Exn e)
  end.

(** The names that read_calfits.py defines at module level. *)
Definition module_globals : list string :=
  ["Metafits"; "signal"; "fits"; "np"; "copy"; "hdu_fields"; "CalFits"]%string.

End HduFields.

(** ** The gains of the antennas of a receiver: [gains_for_receiver] *)

Module Receiver.

Import CalFits.

(** [gains_array[:, i, :, :] = g], in place: [g], of shape
    (Ntime, Nchan, 4), must fit the slice it is written to. *)
Definition set_antenna (gains_array : GainArray) (i : nat) (g : list Tile)
  : result GainArray :=
  if (length g =? length gains_array)%nat
     && forallb (fun '(tb, tile) =>
                   match nth_error tb i with
                   | Some old => (length tile =? length old)%nat
                   | None => false
                   end)
                (combine gains_array g)
  then Ok (map2 (fun tb tile => update tb i tile) gains_array g)
  else Raise ValueError.

(** [for i, an in enumerate(annumbers)], from position [i] on. *)
Fixpoint fill_receiver (self : obj) (i : nat) (annumbers : list Z)
         (gains_array : GainArray) : M GainArray :=
  match annumbers with
  | [] => ret gains_array
  | an :: annumbers' =>
      g <~ gains_for_antnum self an ;;
      gains_array' <~ lift (set_antenna gains_array i g) ;;
      fill_receiver self (S i) annumbers' gains_array'
  end.

Section GainsForReceiver.

(** [self.Metafits.annumbers_for_receiver] *)
Variable annumbers_for_receiver : Z -> result (list Z).

(** [gains_for_receiver] *)
Definition gains_for_receiver (self : obj) (receiver : Z) : M GainArray :=
  p <~ lift (getattr self "metafits_path") ;;
  _ <~ lift (match p with
             | VNone => Raise AssertionError
             | _ => Ok tt
             end) ;;
  annumbers <~ lift (annumbers_for_receiver receiver) ;;
  an0 <~ lift (getitem annumbers 0) ;;
  gains0 <~ gains_for_antnum self an0 ;;
  let _sh := (length gains0, length (hd [] gains0)) in
  let gains_array :=
    repeat (repeat (repeat jzeros (snd _sh)) (length annumbers)) (fst _sh) in
  fill_receiver self 0 annumbers gains_array.

End GainsForReceiver.

End Receiver.

(** ** The default output path of [write_to] *)

Module WriteTo.

(** [s.replace(old, new)] for a pattern that is not empty: the
    occurrences of [old] are taken from the left and do not overlap.
    [skip] counts the characters of a matched occurrence still to be
    passed over. *)
Fixpoint replace_from (skip : nat) (old new s : string) : string :=
  match s with
  | EmptyString => EmptyString
  | String c s' =>
      match skip with
      | S k => replace_from k old new s'
      | O =>
          if String.prefix old s
          then String.append new (replace_from (String.length old - 1) old new s')
          else String c (replace_from 0 old new s')
      end
  end.

Definition replace (old new s : string) : string := replace_from 0 old new s.

(** The path that [write_to] hands to [ju.write_metrics]. *)
Definition write_to_outfile (calfits_path : string) (outfile : option string)
  : string :=
  match outfile with
  | None => replace ".fits" "_cal_metrics.json" calfits_path
  | Some o => o
  end.

End WriteTo.

(** ** The complex gains of the SOLUTIONS table (lines 55-56) *)

Module Solutions.

(** [l[::2]]; [l[1::2]] is [stride2 (tl l)]. *)
Fixpoint stride2 {A} (l : list A) : list A :=
  match l with
  | [] => []
  | x :: l' =>
      x :: match l' with
           | [] => []
           | _ :: l'' => stride2 l''
           end
  end.

(** An elementwise operation on two 1-D arrays: equal lengths, or one of
    them of length 1 and repeated; else ValueError. *)
Definition broadcast2 {A B C} (f : A -> B -> C) (l : list A) (l' : list B)
  : result (list C) :=
  if (length l =? length l')%nat then Ok (CalFits.map2 f l l')
  else match l, l' with
       | _, [y] => Ok (map (fun x => f x y) l)
       | [x], _ => Ok (map (f x) l')
       | _, _ => Raise ValueError
       end.

(** A float64 taken into a complex expression. *)
Definition of_real (x : xnum) : complex := Cx x (xof 0).

(** [1j] *)
Definition j : complex := Cx (xof 0) (xof 1).

(** [data[..., ::2] + 1j * data[..., 1::2]] along the last axis. *)
Definition join_re_im (row : list xnum) : result (list complex) :=
  let re := stride2 row in
  let im := map (fun x => cmul j (of_real x)) (stride2 (tl row)) in
  broadcast2 (fun r c => cadd (of_real r) c) re im.

End Solutions.
Import CalFits.

Unset Implicit Arguments.

(** * Properties *)

(** ** The embedding on small inputs *)

Example getitem_last : getitem [10; 20; 30]%Z (-1) = Ok 30%Z.
Proof. reflexivity. Qed.

Example getitem_out_of_range : getitem [10; 20; 30]%Z (-4) = Raise IndexError.
Proof. reflexivity. Qed.

Example inv_singular : inv Sample.m_singular = Raise LinAlgError.
Proof. vm_compute. reflexivity. Qed.

Example inv_nan : inv jnan = Ok jnan.
Proof. reflexivity. Qed.

Example fftshift_odd :
  Spectral.fftshift [0; 1; 2; 3; 4]%Z = [3; 4; 0; 1; 2]%Z.
Proof. reflexivity. Qed.

Example fftshift_even : Spectral.fftshift [0; 1; 2; 3]%Z = [2; 3; 0; 1]%Z.
Proof. reflexivity. Qed.

Example nanmedian_skips_nan :
  Stat.nanmedian [5; nan; 1; 3; 2]%float = 2.5%float.
Proof. vm_compute. reflexivity. Qed.

Example nanmax_all_nan : Stat.nanmax [nan; nan]%float = Ok nan.
Proof. vm_compute. reflexivity. Qed.

Example nanmax_empty : Stat.nanmax [] = Raise ValueError.
Proof. reflexivity. Qed.

(** With no reference antenna given, the sample container selects
    antenna 1 (antenna 2 is flagged), whose gains are the identity, and
    the normalized array, a new object, equals the parsed one. *)
Example init_selects_unflagged :
  match CalFits.__init__ 4 SampleInit.hd true None [] with
  | Some (Ok self, h) =>
      CalFits.getattr self "ref_antenna" = Ok (CalFits.VInt 1) /\
      CalFits.getattr self "gain_array" = Ok (CalFits.VArray 1%nat) /\
      h = [Sample.gains_identity_ref; Sample.gains_identity_ref]
  | _ => False
  end.
Proof. vm_compute. repeat split. Qed.

Example init_all_flagged :
  CalFits.__init__ 4 SampleInit.hdus_flagged true None [] =
  Some (Raise IndexError, [Sample.gains_identity_ref]).
Proof. reflexivity. Qed.

(** A reference antenna that is NaN at channel 0: nothing is raised, and
    channel 0 of every antenna is NaN in the output. *)
Example normalized_gains_nan_reference :
  match CalFits.normalized_gains Sample.self1 [Sample.gains_nan_ref] with
  | (Ok ng, h) =>
      fmap (map (map (fun tile => map jfinite tile))) (getitem h (Z.of_nat ng))
      = Ok [[[false; true]; [false; true]; [false; true]]]
  | _ => False
  end.
Proof. vm_compute. reflexivity. Qed.


(** ** Python indexing *)

Lemma getitem_from_end {A} (pre suf : list A) (x : A) :
  getitem (pre ++ x :: suf) (- 1 - Z.of_nat (length suf)) = Ok x.
Proof.
  unfold getitem.
  rewrite length_app; cbn [length].
  replace (- 1 - Z.of_nat (length suf) <? 0)%Z with true by (symmetry; apply Z.ltb_lt; lia).
  replace (- 1 - Z.of_nat (length suf) + Z.of_nat (length pre + S (length suf)))%Z
    with (Z.of_nat (length pre)) by lia.
  replace ((Z.of_nat (length pre) <? 0)%Z) with false by (symmetry; apply Z.ltb_ge; lia).
  replace (Z.of_nat (length pre + S (length suf)) <=? Z.of_nat (length pre))%Z
    with false by (symmetry; apply Z.leb_gt; lia).
  cbn [orb]. rewrite Nat2Z.id, nth_error_app2, Nat.sub_diag by lia. reflexivity.
Qed.

Lemma getitem_before_start {A} (l : list A) :
  getitem l (- 1 - Z.of_nat (length l)) = Raise IndexError.
Proof.
  unfold getitem.
  replace (- 1 - Z.of_nat (length l) <? 0)%Z with true by (symmetry; apply Z.ltb_lt; lia).
  replace (- 1 - Z.of_nat (length l) + Z.of_nat (length l) <? 0)%Z
    with true by (symmetry; apply Z.ltb_lt; lia).
  reflexivity.
Qed.

(** ** Reference-antenna selection *)

Section Refant.

Variable self : obj.
Variable rows : list tile_row.
Hypothesis Hflags : getattr self "antenna_flags" = Ok (VInts (map t_flag rows)).
Hypothesis Hants : getattr self "antenna" = Ok (VInts (map t_antenna rows)).

Lemma iterate_refant_loop_scan (pre suf : list tile_row) (fuel : nat) :
  rows = pre ++ suf ->
  (length pre < fuel)%nat ->
  _iterate_refant_loop fuel self (- 1 - Z.of_nat (length suf)) =
  Some (match find unflagged (rev pre) with
        | Some r => Ok (t_antenna r)
        | None => Raise IndexError
        end).
Proof.
  revert suf fuel.
  induction pre as [|r pre IH] using rev_ind; intros suf fuel Hrows Hfuel.
  - destruct fuel as [|fuel]; [cbn in Hfuel; lia|].
    cbn [_iterate_refant_loop].
    replace (- 1 - Z.of_nat (length suf) <? 0)%Z with true
      by (symmetry; apply Z.ltb_lt; lia).
    rewrite Hflags. cbn [Py.bind as_ints].
    cbn [app] in Hrows. subst rows.
    rewrite <- (length_map t_flag suf), getitem_before_start. reflexivity.
  - destruct fuel as [|fuel]; [lia|].
    rewrite length_app in Hfuel; cbn [length] in Hfuel.
    cbn [_iterate_refant_loop].
    replace (- 1 - Z.of_nat (length suf) <? 0)%Z with true
      by (symmetry; apply Z.ltb_lt; lia).
    rewrite Hflags, Hants. cbn [Py.bind as_ints].
    rewrite <- app_assoc in Hrows; cbn [app] in Hrows.
    rewrite Hrows, !map_app. cbn [map].
    rewrite <- (length_map t_flag suf) at 1.
    rewrite getitem_from_end.
    rewrite rev_app_distr. cbn [rev app find].
    change (unflagged r) with (t_flag r =? 0)%Z.
    destruct (t_flag r =? 0)%Z.
    + rewrite <- (length_map t_antenna suf), getitem_from_end. reflexivity.
    + replace (- 1 - Z.of_nat (length suf) - 1)%Z
        with (- 1 - Z.of_nat (length (r :: suf)))%Z by (cbn [length]; lia).
      apply IH; [assumption | lia].
Qed.

End Refant.

Lemma getattr_init_tiles_flags (fields : list string) (rows : list tile_row) (self0 : obj) :
  has_field "Flag" fields = true ->
  getattr (init_tiles {| tile_fields := fields; tile_data := rows |} self0) "antenna_flags"
  = Ok (VInts (map t_flag rows)).
Proof.
  intros H. unfold init_tiles. cbn [tile_fields tile_data]. rewrite H. reflexivity.
Qed.

Lemma getattr_init_tiles_antenna (fields : list string) (rows : list tile_row) (self0 : obj) :
  has_field "Antenna" fields = true ->
  getattr (init_tiles {| tile_fields := fields; tile_data := rows |} self0) "antenna"
  = Ok (VInts (map t_antenna rows)).
Proof.
  intros H. unfold init_tiles. cbn [tile_fields tile_data]. rewrite H.
  destruct (has_field "TileName" fields), (has_field "Flag" fields); reflexivity.
Qed.

(** C2.  With no reference antenna supplied, [_iterate_refant] scans the
    antenna table of the instance from the last row backward and returns
    the antenna number of the first row whose flag is 0; when every row is
    flagged (or the table is empty) the scan ends with IndexError, the
    index having run off the front of the table.  The loop ends within
    one iteration more than the table has rows. *)
Theorem iterate_refant_scans_backward
  (self : obj) (rows : list tile_row) (fuel : nat) :
  getattr self "antenna_flags" = Ok (VInts (map t_flag rows)) ->
  getattr self "antenna" = Ok (VInts (map t_antenna rows)) ->
  (length rows < fuel)%nat ->
  _iterate_refant fuel self =
  Some (match find unflagged (rev rows) with
        | Some r => Ok (t_antenna r)
        | None => Raise IndexError
        end).
Proof.
  intros Hf Ha Hfuel. unfold _iterate_refant.
  change (-1)%Z with (- 1 - Z.of_nat (length (@nil tile_row)))%Z.
  apply iterate_refant_loop_scan with (rows := rows); auto.
  now rewrite app_nil_r.
Qed.

(** The instance that [__init__] has built when it selects the reference
    antenna holds the columns of the TILES table. *)
Lemma init_all_flagged_raises (fuel : nat) (hd : hdus) (h : heap) :
  has_field "Antenna" (tile_fields (TILES hd)) = true ->
  has_field "Flag" (tile_fields (TILES hd)) = true ->
  find unflagged (rev (tile_data (TILES hd))) = None ->
  (length (tile_data (TILES hd)) < fuel)%nat ->
  __init__ fuel hd true None h = Some (Raise IndexError, h ++ [SOLUTIONS hd]).
Proof.
  intros Ha Hf Hnone Hfuel. unfold __init__. cbv zeta.
  unfold _iterate_refant.
  change (-1)%Z with (- 1 - Z.of_nat (length (@nil tile_row)))%Z.
  rewrite (iterate_refant_loop_scan _ (tile_data (TILES hd))) with (pre := tile_data (TILES hd)).
  - rewrite Hnone. reflexivity.
  - destruct (TILES hd) as [fields rows]. cbn [tile_fields tile_data] in *.
    cbn [getattr setattr String.eqb Ascii.eqb Bool.eqb].
    now apply getattr_init_tiles_flags.
  - destruct (TILES hd) as [fields rows]. cbn [tile_fields tile_data] in *.
    cbn [getattr setattr String.eqb Ascii.eqb Bool.eqb].
    now apply getattr_init_tiles_antenna.
  - now rewrite app_nil_r.
  - exact Hfuel.
Qed.

(** ** Exact complex arithmetic with NaN *)

Lemma cmul_c1_r (a : complex) :
  xisnan (re a) = xisnan (im a) -> cmul a c1 = a.
Proof.
  destruct a as [[x|] [y|]]; cbn; intros H; try discriminate; try reflexivity.
  unfold cmul, c1, xof; cbn. f_equal; f_equal; ring.
Qed.

Lemma cmul_c0_r (a : complex) :
  cfinite a = true -> cmul a c0 = c0.
Proof.
  destruct a as [[x|] [y|]]; cbn; intros H; try discriminate.
  unfold cmul, c0, xof; cbn. f_equal; f_equal; ring.
Qed.

Lemma cadd_c0_r (a : complex) : cfinite a = true -> cadd a c0 = a.
Proof.
  destruct a as [[x|] [y|]]; cbn; intros H; try discriminate.
  unfold cadd, c0, xof; cbn. f_equal; f_equal; ring.
Qed.

Lemma cadd_c0_l (a : complex) : cfinite a = true -> cadd c0 a = a.
Proof.
  destruct a as [[x|] [y|]]; cbn; intros H; try discriminate.
  unfold cadd, c0, xof; cbn. f_equal; f_equal; ring.
Qed.

Lemma cmul_cnan_r (a : complex) : cmul a cnan = cnan.
Proof. destruct a as [[x|] [y|]]; reflexivity. Qed.

Lemma cadd_cnan_r (a : complex) : cadd a cnan = cnan.
Proof. destruct a as [[x|] [y|]]; reflexivity. Qed.

(** ** Jones matrices *)

Lemma inv_jidentity : inv jidentity = Ok jidentity.
Proof. vm_compute. reflexivity. Qed.

Lemma jflagged_jnan (m : jones) : jflagged m = true -> m = jnan.
Proof.
  destruct m as [[[?|] [?|]] [[?|] [?|]] [[?|] [?|]] [[?|] [?|]]];
    cbn; intros H; try discriminate; reflexivity.
Qed.

Lemma dot_jidentity_r (a : jones) : jvalid a = true -> dot a jidentity = a.
Proof.
  unfold jvalid. intros H. apply orb_true_iff in H. destruct H as [H|H].
  - destruct a as [xx xy yx yy]. unfold jfinite, jforall in H. cbn in H.
    apply andb_true_iff in H. destruct H as [H Hyy].
    apply andb_true_iff in H. destruct H as [H Hyx].
    apply andb_true_iff in H. destruct H as [Hxx Hxy].
    assert (Hn : forall c, cfinite c = true -> xisnan (re c) = xisnan (im c)).
    { intros [[?|] [?|]]; cbn; intros; try discriminate; reflexivity. }
    unfold dot, jidentity; cbn [XX XY YX YY].
    rewrite !cmul_c1_r, !cmul_c0_r, !cadd_c0_r, !cadd_c0_l by auto.
    reflexivity.
  - apply jflagged_jnan in H. subst a. reflexivity.
Qed.

(** The exact inversion [inv] raises on a matrix of numbers whose
    determinant is zero and on no other, and what it raises is
    LinAlgError. *)
Lemma inv_raises (m : jones) (e : exn) :
  inv m = Raise e <-> e = LinAlgError /\ jfinite m = true /\ ciszero (det m) = true.
Proof.
  unfold inv. destruct (jfinite m); [destruct (ciszero (det m))|]; split;
    try (intros H; discriminate H);
    try (intros (_ & H1 & H2); discriminate).
  - intros H. injection H as <-. auto.
  - intros (-> & _). reflexivity.
Qed.

(** ** Sequences *)

Lemma mapM_length {A B} (f : A -> result B) (xs : list A) (ys : list B) :
  mapM f xs = Ok ys -> length ys = length xs.
Proof.
  revert ys. induction xs as [|x xs IH]; cbn; intros ys H.
  - injection H as <-. reflexivity.
  - destruct (f x); [|discriminate]. cbn in H.
    destruct (mapM f xs); [|discriminate]. cbn in H.
    injection H as <-. cbn. f_equal. now apply IH.
Qed.

Lemma mapM_id {A} (f : A -> result A) (xs : list A) :
  Forall (fun x => f x = Ok x) xs -> mapM f xs = Ok xs.
Proof.
  induction 1 as [|x xs Hx _ IH]; cbn; [reflexivity|].
  rewrite Hx, IH. reflexivity.
Qed.

Lemma mapM_raise {A B} (f : A -> result B) (xs : list A) (e : exn) :
  mapM f xs = Raise e -> exists x, In x xs /\ f x = Raise e.
Proof.
  induction xs as [|x xs IH]; cbn; [discriminate|].
  destruct (f x) eqn:E; cbn.
  - destruct (mapM f xs); cbn; [discriminate|].
    intros H. injection H as ->. destruct (IH eq_refl) as (y & Hy & Hf).
    exists y; auto.
  - intros H. injection H as ->. exists x; auto.
Qed.

Lemma mapM_In_raise {A B} (f : A -> result B) (xs : list A) (x : A) (e : exn) :
  In x xs -> f x = Raise e -> exists e', mapM f xs = Raise e'.
Proof.
  induction xs as [|y xs IH]; cbn; [contradiction|].
  intros [->|Hin] Hf.
  - rewrite Hf. cbn. eauto.
  - destruct (f y); cbn; [|eauto].
    destruct (IH Hin Hf) as (e' & ->). cbn. eauto.
Qed.

Lemma getitem_In {A} (l : list A) (i : Z) (x : A) : getitem l i = Ok x -> In x l.
Proof.
  unfold getitem. destruct (_ || _); [discriminate|].
  destruct (nth_error l _) eqn:E; [|discriminate].
  intros H. injection H as <-. eapply nth_error_In; eauto.
Qed.

Lemma getitem_nat {A} (l : list A) (k : nat) :
  getitem l (Z.of_nat k) =
  match nth_error l k with
  | Some x => Ok x
  | None => Raise IndexError
  end.
Proof.
  assert (Hk : (Z.of_nat k <? 0)%Z = false) by (apply Z.ltb_ge; lia).
  unfold getitem. cbv zeta. rewrite Hk. cbv iota. rewrite Hk.
  cbn [orb]. rewrite Nat2Z.id.
  destruct (Z.of_nat (length l) <=? Z.of_nat k)%Z eqn:E.
  - apply Z.leb_le in E.
    destruct (nth_error l k) eqn:N; [|reflexivity].
    assert (k < length l)%nat by (apply nth_error_Some; congruence). lia.
  - reflexivity.
Qed.

Lemma rows_concat {A} (m : nat) (ls : list (list A)) :
  Forall (fun l => length l = m) ls -> rows (length ls) m (concat ls) = ls.
Proof.
  induction 1 as [|l ls Hl _ IH]; cbn; [reflexivity|].
  rewrite firstn_app, skipn_app, Hl, Nat.sub_diag.
  rewrite <- Hl at 1 3. rewrite firstn_all, skipn_all. cbn.
  rewrite app_nil_r. f_equal. exact IH.
Qed.

Lemma length_concat_rect {A} (m : nat) (ls : list (list A)) :
  Forall (fun l => length l = m) ls -> length (concat ls) = (length ls * m)%nat.
Proof.
  induction 1 as [|l ls Hl _ IH]; cbn; [reflexivity|].
  rewrite length_app, Hl, IH. reflexivity.
Qed.

Lemma update_app_here {A} (pre rest : list A) (x y : A) :
  update (pre ++ x :: rest) (length pre) y = pre ++ y :: rest.
Proof. induction pre as [|p pre IH]; cbn; [reflexivity|]. now rewrite IH. Qed.

Lemma update_last {A} (h : list A) (x y : A) :
  update (h ++ [x]) (length h) y = h ++ [y].
Proof. apply update_app_here. Qed.

(** ** Normalization of one timeblock *)

Lemma rectangular_spec (data : Timeblock) :
  rectangular data = true ->
  Forall (fun tile : Tile => length tile = length (hd [] data)) data.
Proof.
  unfold rectangular. intros H. rewrite forallb_forall in H.
  apply Forall_forall. intros tile Hin. apply Nat.eqb_eq. now apply H.
Qed.

Lemma length_map2 {A B C} (f : A -> B -> C) (l : list A) (l' : list B) :
  length l = length l' -> length (map2 f l l') = length l.
Proof.
  intros H. unfold map2. rewrite length_map, length_combine, <- H.
  apply Nat.min_id.
Qed.

(** On a rectangular timeblock the flat list of products, regrouped to the
    shape of the input, is the input with every matrix multiplied on the
    right by the inverse of the reference matrix of its channel. *)
Lemma normalized_data_rect (self : obj) (r : Z) (data : Timeblock)
      (ref_tile refs : Tile) :
  getattr self "ref_antenna" = Ok (VInt r) ->
  rectangular data = true ->
  getitem data r = Ok ref_tile ->
  mapM inv ref_tile = Ok refs ->
  _normalized_data self data = Ok (map (fun tile_i => map2 dot tile_i refs) data).
Proof.
  intros Hr Hrect Hget Hinv.
  unfold _normalized_data, _normalized_data_over. rewrite Hr. cbn [Py.bind as_int].
  unfold gains_ind_for. rewrite Hget. cbn [Py.bind]. rewrite Hinv. cbn [Py.bind].
  pose proof (rectangular_spec _ Hrect) as Hall.
  assert (Hlen : length refs = length (hd [] data)).
  { rewrite (mapM_length _ _ _ Hinv).
    rewrite Forall_forall in Hall. apply Hall. eapply getitem_In; eauto. }
  rewrite flat_map_concat_map.
  change (fun tile_i : list jones =>
            map (fun '(i, ref) => dot i ref) (combine tile_i refs))
    with (fun tile_i : list jones => map2 dot tile_i refs).
  assert (Hrows : Forall (fun l : Tile => length l = length (hd [] data))
                         (map (fun tile_i => map2 dot tile_i refs) data)).
  { apply Forall_map. eapply Forall_impl; [|exact Hall].
    cbn. intros tile Ht. rewrite length_map2; congruence. }
  unfold reshape, shape. cbn [fst snd].
  rewrite (length_concat_rect _ _ Hrows), length_map, Nat.eqb_refl.
  replace (length data)
    with (length (map (fun tile_i => map2 dot tile_i refs) data))
    by apply length_map.
  rewrite rows_concat by exact Hrows. reflexivity.
Qed.

(** ** [normalized_gains] over the heap *)

Section NormalizedGains.

Variable linalg_inv : jones -> result jones.
Variable self : obj.
Variable g : loc.
Variable h : heap.
Variable a : GainArray.
Hypothesis Hattr : getattr self "gain_array" = Ok (VArray g).
Hypothesis Hderef : nth_error h g = Some a.

Let body (ngains : loc) (t : Z) : M unit :=
  g' <~ attr_array self "gain_array" ;;
  src <~ deref g' ;;
  data <~ lift (getitem src t) ;;
  row <~ lift (_normalized_data_over linalg_inv self data) ;;
  setitem ngains t row.

Lemma gain_array_in_heap : (g < length h)%nat.
Proof. apply nth_error_Some. congruence. Qed.

(** The loop, started after [pre] has been processed into [done]: every
    iteration reads its timeblock from the array at [g], which is the
    input still, and writes into the copy only. *)
Lemma normalized_gains_loop_over (rest pre done : GainArray) :
  a = pre ++ rest ->
  length done = length pre ->
  exists cur : GainArray,
    for_ (map Z.of_nat (seq (length pre) (length rest))) (body (length h))
         (h ++ [done ++ rest]) =
    (match mapM (_normalized_data_over linalg_inv self) rest with
     | Ok _ => Ok tt
     | Raise e => Raise e
     end, h ++ [cur]) /\
    (forall out, mapM (_normalized_data_over linalg_inv self) rest = Ok out ->
                 cur = done ++ out).
Proof.
  revert pre done.
  induction rest as [|r rest IH]; intros pre done Ha Hlen.
  - exists (done ++ []). cbn. split; [reflexivity|].
    intros out H. injection H as <-. reflexivity.
  - cbn [length seq map for_ mapM].
    unfold bindM at 1. unfold body at 1.
    unfold bindM at 1. unfold attr_array, lift. rewrite Hattr.
    cbn [Py.bind as_array].
    unfold bindM at 1. unfold deref.
    rewrite nth_error_app1 by apply gain_array_in_heap. rewrite Hderef.
    unfold bindM at 1.
    rewrite getitem_nat, Ha, nth_error_app2, Nat.sub_diag by lia.
    cbn [nth_error].
    unfold bindM at 1.
    destruct (_normalized_data_over linalg_inv self r) as [row|e] eqn:Hrow.
    + cbn [Py.bind].
      unfold setitem.
      rewrite nth_error_app2, Nat.sub_diag by lia. cbn [nth_error].
      rewrite getitem_nat, nth_error_app2 by lia.
      rewrite Hlen, Nat.sub_diag. cbn [nth_error].
      replace (Z.of_nat (length pre) <? 0)%Z with false
        by (symmetry; apply Z.ltb_ge; lia).
      rewrite Nat2Z.id, update_last.
      rewrite <- Hlen, update_app_here.
      destruct (IH (pre ++ [r]) (done ++ [row])) as (cur & Hrun & Hout).
      { rewrite <- app_assoc. exact Ha. }
      { rewrite !length_app. cbn. lia. }
      exists cur. split.
      * rewrite length_app in Hrun. cbn [length] in Hrun.
        rewrite Nat.add_1_r, <- app_assoc in Hrun. cbn [app] in Hrun.
        rewrite <- Hlen in Hrun.
        etransitivity; [exact Hrun|].
        destruct (mapM (_normalized_data_over linalg_inv self) rest); reflexivity.
      * intros out H.
        destruct (mapM (_normalized_data_over linalg_inv self) rest) as [out'|];
          [|discriminate].
        cbn in H. injection H as <-.
        rewrite (Hout out' eq_refl), <- app_assoc. reflexivity.
    + cbn [Py.bind]. exists (done ++ r :: rest). split; [reflexivity|].
      intros out H. discriminate.
Qed.

(** [normalized_gains] appends one array to the heap and changes nothing
    else; when every timeblock normalizes, the new array holds the
    normalization of each timeblock of the input and its address is
    returned; otherwise the first exception is raised. *)
Lemma normalized_gains_run_over :
  exists cur : GainArray,
    normalized_gains_over linalg_inv self h =
    (match mapM (_normalized_data_over linalg_inv self) a with
     | Ok _ => Ok (length h)
     | Raise e => Raise e
     end, h ++ [cur]) /\
    (forall out, mapM (_normalized_data_over linalg_inv self) a = Ok out -> cur = out).
Proof.
  destruct (normalized_gains_loop_over a [] [] eq_refl eq_refl)
    as (cur & Hrun & Hout).
  exists cur. split; [|exact Hout].
  unfold normalized_gains_over.
  unfold bindM at 1. unfold attr_array at 1, lift. rewrite Hattr.
  cbn [Py.bind as_array].
  unfold bindM at 1. unfold deepcopy. rewrite Hderef.
  unfold bindM at 1. unfold deref.
  rewrite nth_error_app2, Nat.sub_diag by lia. cbn [nth_error].
  unfold bindM at 1. unfold range.
  cbn [length app] in Hrun.
  match goal with
  | |- context [for_ ?l ?b ?hh] =>
      replace (for_ l b hh)
        with (match mapM (_normalized_data_over linalg_inv self) a with
              | Ok _ => Ok tt
              | Raise e => Raise e
              end, h ++ [cur])
        by (symmetry; exact Hrun)
  end.
  destruct (mapM (_normalized_data_over linalg_inv self) a); reflexivity.
Qed.

End NormalizedGains.

(** The same at the exact inversion. *)
Lemma normalized_gains_run (self : obj) (g : loc) (h : heap) (a : GainArray) :
  getattr self "gain_array" = Ok (VArray g) ->
  nth_error h g = Some a ->
  exists cur : GainArray,
    normalized_gains self h =
    (match mapM (_normalized_data self) a with
     | Ok _ => Ok (length h)
     | Raise e => Raise e
     end, h ++ [cur]) /\
    (forall out, mapM (_normalized_data self) a = Ok out -> cur = out).
Proof. exact (normalized_gains_run_over inv self g h a). Qed.

Lemma valid_gain_array_In (a : GainArray) (data : Timeblock) :
  valid_gain_array a = true -> In data a ->
  rectangular data = true /\ forallb (forallb jvalid) data = true.
Proof.
  unfold valid_gain_array. rewrite forallb_forall. intros H Hin.
  apply andb_true_iff. now apply H.
Qed.

Lemma map2_dot_identity (tile refs : Tile) :
  length tile = length refs ->
  forallb jvalid tile = true ->
  Forall (eq jidentity) refs ->
  map2 dot tile refs = tile.
Proof.
  intros Hlen Hv Hid. revert tile Hlen Hv.
  induction Hid as [|m refs <- _ IH]; intros [|x tile] Hlen Hv;
    try discriminate; [reflexivity|].
  cbn in Hv. apply andb_true_iff in Hv. destruct Hv as [Hx Hv].
  unfold map2 in *. cbn. rewrite dot_jidentity_r by exact Hx.
  f_equal. apply IH; [now injection Hlen | exact Hv].
Qed.

(** A timeblock normalized against an identity reference is itself. *)
Lemma normalized_data_identity (self : obj) (r : Z) (data : Timeblock)
      (ref_tile : Tile) :
  getattr self "ref_antenna" = Ok (VInt r) ->
  rectangular data = true ->
  forallb (forallb jvalid) data = true ->
  getitem data r = Ok ref_tile ->
  Forall (eq jidentity) ref_tile ->
  _normalized_data self data = Ok data.
Proof.
  intros Hr Hrect Hv Hget Hid.
  assert (Hinv : mapM inv ref_tile = Ok ref_tile).
  { apply mapM_id. eapply Forall_impl; [|exact Hid].
    cbn. intros m <-. exact inv_jidentity. }
  rewrite (normalized_data_rect _ _ _ _ _ Hr Hrect Hget Hinv). f_equal.
  pose proof (rectangular_spec _ Hrect) as Hall.
  rewrite Forall_forall in Hall. rewrite forallb_forall in Hv.
  rewrite <- (map_id data) at 2. apply map_ext_in. intros tile Hin.
  apply map2_dot_identity; [|now apply Hv|exact Hid].
  rewrite (Hall _ Hin). symmetry. apply Hall. eapply getitem_In; eauto.
Qed.

Lemma mapM_Forall2 {A B} (f : A -> result B) (xs : list A) (ys : list B) :
  mapM f xs = Ok ys -> Forall2 (fun x y => f x = Ok y) xs ys.
Proof.
  revert ys. induction xs as [|x xs IH]; cbn; intros ys H.
  - injection H as <-. constructor.
  - destruct (f x) eqn:E; [|discriminate]. cbn in H.
    destruct (mapM f xs); [|discriminate]. cbn in H.
    injection H as <-. constructor; auto.
Qed.

Lemma Forall2_nth_error_l {A B} (P : A -> B -> Prop) (xs : list A) (ys : list B)
      (n : nat) (x : A) :
  Forall2 P xs ys -> nth_error xs n = Some x ->
  exists y, nth_error ys n = Some y /\ P x y.
Proof.
  intros H. revert n. induction H as [|x' y' xs ys Hxy _ IH]; intros [|n]; cbn;
    try discriminate.
  - intros [= <-]. eauto.
  - apply IH.
Qed.

Lemma nth_error_map_inv {A B} (f : A -> B) (l : list A) (n : nat) (y : B) :
  nth_error (map f l) n = Some y ->
  exists x, nth_error l n = Some x /\ y = f x.
Proof.
  revert n. induction l as [|a l IH]; intros [|n]; cbn; try discriminate.
  - intros [= <-]. eauto.
  - apply IH.
Qed.

Lemma nth_error_map2 {A B C} (f : A -> B -> C) (l : list A) (l' : list B)
      (n : nat) (x : A) (y : B) :
  nth_error l n = Some x -> nth_error l' n = Some y ->
  nth_error (map2 f l l') n = Some (f x y).
Proof.
  revert l' n. induction l as [|a l IH]; intros [|b l'] [|n]; cbn;
    try discriminate.
  - intros [= <-] [= <-]. reflexivity.
  - apply IH.
Qed.

(** ** The claims on normalization *)

(** C10.  [normalized_gains] never writes to an array that was in the heap
    when it was called, the store's gain array among them: every address
    of the old heap holds what it held, whether the call returns or
    raises.  What it returns is the address of a new array object (no
    address of the old heap, so it shares no storage with the input),
    and timeblock [t] of that array is [_normalized_data] of timeblock
    [t] of the input as it was on entry. *)
Theorem normalized_gains_preserves_input
  (self : obj) (g : loc) (h : heap) (a : GainArray) :
  getattr self "gain_array" = Ok (VArray g) ->
  nth_error h g = Some a ->
  let res := normalized_gains self h in
  (forall l, (l < length h)%nat -> nth_error (snd res) l = nth_error h l) /\
  nth_error (snd res) g = Some a /\
  length (snd res) = S (length h) /\
  (forall ng, fst res = Ok ng ->
     ng = length h /\ ng <> g /\ nth_error h ng = None /\
     exists out, nth_error (snd res) ng = Some out /\
                 mapM (_normalized_data self) a = Ok out /\
                 Forall2 (fun data row => _normalized_data self data = Ok row)
                         a out).
Proof.
  intros Hattr Hderef res.
  destruct (normalized_gains_run self g h a Hattr Hderef) as (cur & Hrun & Hout).
  pose proof (gain_array_in_heap g h a Hderef) as Hg.
  subst res. rewrite Hrun. cbn [fst snd].
  repeat split.
  - intros l Hl. now rewrite nth_error_app1.
  - now rewrite nth_error_app1.
  - rewrite length_app. cbn. lia.
  - destruct (mapM (_normalized_data self) a); congruence.
  - destruct (mapM (_normalized_data self) a); [|discriminate].
    injection H as <-. lia.
  - apply nth_error_None.
    destruct (mapM (_normalized_data self) a); [|discriminate].
    injection H as <-. lia.
  - destruct (mapM (_normalized_data self) a) as [out|] eqn:E; [|discriminate].
    injection H as <-. exists out.
    rewrite nth_error_app2, Nat.sub_diag by lia. cbn.
    rewrite (Hout out eq_refl). repeat split.
    now apply mapM_Forall2.
Qed.

Lemma normalized_gains_preserves_input_witness :
  getattr Sample.self1 "gain_array" = Ok (VArray 0%nat) /\
  nth_error [Sample.gains_identity_ref] 0 = Some Sample.gains_identity_ref /\
  let res := normalized_gains Sample.self1 [Sample.gains_identity_ref] in
  (forall l, (l < 1)%nat ->
     nth_error (snd res) l = nth_error [Sample.gains_identity_ref] l) /\
  nth_error (snd res) 0 = Some Sample.gains_identity_ref /\
  length (snd res) = 2%nat /\
  (forall ng, fst res = Ok ng ->
     ng = 1%nat /\ ng <> 0%nat /\
     nth_error [Sample.gains_identity_ref] ng = None /\
     exists out, nth_error (snd res) ng = Some out /\
                 mapM (_normalized_data Sample.self1)
                      Sample.gains_identity_ref = Ok out /\
                 Forall2 (fun data row =>
                            _normalized_data Sample.self1 data = Ok row)
                         Sample.gains_identity_ref out).
Proof.
  split; [reflexivity|]. split; [reflexivity|].
  apply (normalized_gains_preserves_input
           Sample.self1 0%nat [Sample.gains_identity_ref]
           Sample.gains_identity_ref); reflexivity.
Defined.

(** C4.  On a well-formed gain array whose reference antenna has the
    identity as Jones matrix at every channel of every timeblock,
    [normalized_gains] returns a new array equal to the input: the gains
    of every antenna are unchanged. *)
Theorem normalized_gains_identity_reference
  (self : obj) (g : loc) (h : heap) (a : GainArray) (r : Z) :
  getattr self "gain_array" = Ok (VArray g) ->
  nth_error h g = Some a ->
  getattr self "ref_antenna" = Ok (VInt r) ->
  valid_gain_array a = true ->
  (forall data, In data a ->
     exists ref_tile, getitem data (gains_ind_for r) = Ok ref_tile /\
                      Forall (eq jidentity) ref_tile) ->
  normalized_gains self h = (Ok (length h), h ++ [a]).
Proof.
  intros Hattr Hderef Hr Hvalid Hid.
  assert (Hall : mapM (_normalized_data self) a = Ok a).
  { apply mapM_id. apply Forall_forall. intros data Hin.
    destruct (Hid data Hin) as (ref_tile & Hget & Hone).
    destruct (valid_gain_array_In a data Hvalid Hin) as (Hrect & Hv).
    now apply normalized_data_identity with (r := r) (ref_tile := ref_tile). }
  destruct (normalized_gains_run self g h a Hattr Hderef) as (cur & Hrun & Hout).
  rewrite Hrun, Hall, (Hout a Hall). reflexivity.
Qed.

Lemma normalized_gains_identity_reference_witness :
  valid_gain_array Sample.gains_identity_ref = true /\
  normalized_gains Sample.self1 [Sample.gains_identity_ref] =
  (Ok 1%nat, [Sample.gains_identity_ref; Sample.gains_identity_ref]).
Proof.
  split; [reflexivity|].
  apply (normalized_gains_identity_reference
           Sample.self1 0%nat [Sample.gains_identity_ref]
           Sample.gains_identity_ref 1%Z);
    try reflexivity.
  intros data [<-|[]]. exists [jidentity; jidentity].
  split; [reflexivity|]. repeat constructor.
Defined.

(** C3, as the specification states it, fails: with a reference antenna
    whose Jones matrix is singular at one channel of one timeblock
    ([[1, 2], [2, 4]] at channel 0 of the second timeblock, every other
    matrix invertible), [normalized_gains] raises LinAlgError and returns
    no array at all. *)
Lemma singular_reference_aborts_normalization :
  valid_gain_array Sample.gains_singular_ref = true /\
  inv Sample.m_singular = Raise LinAlgError /\
  fst (normalized_gains Sample.self1 [Sample.gains_singular_ref]) =
    Raise LinAlgError /\
  ~ (exists ng, fst (normalized_gains Sample.self1 [Sample.gains_singular_ref])
                = Ok ng).
Proof.
  assert (H : fst (normalized_gains Sample.self1 [Sample.gains_singular_ref])
              = Raise LinAlgError) by (vm_compute; reflexivity).
  repeat split; try (vm_compute; reflexivity); try exact H.
  intros (ng & Hng). rewrite H in Hng. discriminate.
Qed.

(** A rectangular timeblock with the reference antenna in range, over
    any inversion: the exception of the first reference matrix on which
    the inversion raises is the timeblock's, and when it raises on none
    the timeblock is the input multiplied by the inverses. *)
Lemma normalized_data_over_cases (linalg_inv : jones -> result jones)
      (self : obj) (r : Z) (data : Timeblock) (ref_tile : Tile) :
  getattr self "ref_antenna" = Ok (VInt r) ->
  rectangular data = true ->
  getitem data r = Ok ref_tile ->
  _normalized_data_over linalg_inv self data =
  match mapM linalg_inv ref_tile with
  | Ok refs => Ok (map (fun tile_i => map2 dot tile_i refs) data)
  | Raise e => Raise e
  end.
Proof.
  intros Hr Hrect Hget.
  unfold _normalized_data_over. rewrite Hr. cbn [Py.bind as_int].
  unfold gains_ind_for. rewrite Hget. cbn [Py.bind].
  destruct (mapM linalg_inv ref_tile) as [refs|e] eqn:Hinv; [|reflexivity].
  cbn [Py.bind].
  pose proof (rectangular_spec _ Hrect) as Hall.
  assert (Hlen : length refs = length (hd [] data)).
  { rewrite (mapM_length _ _ _ Hinv).
    rewrite Forall_forall in Hall. apply Hall. eapply getitem_In; eauto. }
  rewrite flat_map_concat_map.
  change (fun tile_i : list jones =>
            map (fun '(i, ref) => dot i ref) (combine tile_i refs))
    with (fun tile_i : list jones => map2 dot tile_i refs).
  assert (Hrows : Forall (fun l : Tile => length l = length (hd [] data))
                         (map (fun tile_i => map2 dot tile_i refs) data)).
  { apply Forall_map. eapply Forall_impl; [|exact Hall].
    cbn. intros tile Ht. rewrite length_map2; congruence. }
  unfold reshape, shape. cbn [fst snd].
  rewrite (length_concat_rect _ _ Hrows), length_map, Nat.eqb_refl.
  replace (length data)
    with (length (map (fun tile_i => map2 dot tile_i refs) data))
    by apply length_map.
  rewrite rows_concat by exact Hrows. reflexivity.
Qed.

(** C3, amended.  Whatever [np.linalg.inv] is taken to do, nothing
    catches what it raises.  On an array of rectangular timeblocks that
    have the reference antenna: if the inversion raises on the reference
    matrix of some channel of some timeblock, [normalized_gains] ends
    with an exception that the inversion raised on a reference matrix, it
    returns no array, and every array that was in the store is as it
    was; if the inversion raises on no reference matrix,
    [normalized_gains] completes and returns a new array with as many
    timeblocks as the input. *)
Theorem normalized_gains_inv_error_aborts
  (linalg_inv : jones -> result jones)
  (self : obj) (g : loc) (h : heap) (a : GainArray) (r : Z) :
  getattr self "gain_array" = Ok (VArray g) ->
  nth_error h g = Some a ->
  getattr self "ref_antenna" = Ok (VInt r) ->
  (forall data, In data a ->
     rectangular data = true /\
     exists ref_tile, getitem data (gains_ind_for r) = Ok ref_tile) ->
  ((exists data ref_tile m e,
      In data a /\ getitem data (gains_ind_for r) = Ok ref_tile /\
      In m ref_tile /\ linalg_inv m = Raise e) ->
   (exists data' ref_tile' m' e',
      In data' a /\ getitem data' (gains_ind_for r) = Ok ref_tile' /\
      In m' ref_tile' /\ linalg_inv m' = Raise e' /\
      fst (normalized_gains_over linalg_inv self h) = Raise e') /\
   (forall l, (l < length h)%nat ->
      nth_error (snd (normalized_gains_over linalg_inv self h)) l
      = nth_error h l))
  /\
  ((forall data ref_tile m,
      In data a -> getitem data (gains_ind_for r) = Ok ref_tile ->
      In m ref_tile -> exists m', linalg_inv m = Ok m') ->
   exists out,
     normalized_gains_over linalg_inv self h = (Ok (length h), h ++ [out]) /\
     length out = length a).
Proof.
  intros Hattr Hderef Hr Hshape. unfold gains_ind_for in *.
  destruct (normalized_gains_run_over linalg_inv self g h a Hattr Hderef)
    as (cur & Hrun & Hout).
  assert (Hcases : forall data, In data a ->
            exists ref_tile,
              getitem data r = Ok ref_tile /\
              _normalized_data_over linalg_inv self data =
              match mapM linalg_inv ref_tile with
              | Ok refs => Ok (map (fun tile_i => map2 dot tile_i refs) data)
              | Raise e => Raise e
              end).
  { intros data Hin. destruct (Hshape data Hin) as (Hrect & ref_tile & Hget).
    exists ref_tile. split; [exact Hget|].
    now apply normalized_data_over_cases with (r := r). }
  split.
  - intros (data & ref_tile & m & e & Hin & Hget & Hm & He).
    assert (Hdata : exists e0, _normalized_data_over linalg_inv self data
                               = Raise e0).
    { destruct (Hcases data Hin) as (ref_tile0 & Hget0 & ->).
      pose proof (eq_trans (eq_sym Hget0) Hget) as E. injection E as ->.
      destruct (mapM_In_raise linalg_inv _ _ _ Hm He) as (e0 & ->). eauto. }
    destruct Hdata as (e0 & Hdata).
    destruct (mapM_In_raise _ a data _ Hin Hdata) as (e' & He').
    rewrite Hrun, He'. cbn [fst snd]. split.
    + destruct (mapM_raise _ _ _ He') as (data' & Hin' & Hd').
      destruct (Hcases data' Hin') as (ref_tile' & Hget' & Hcase).
      pose proof (eq_trans (eq_sym Hd') Hcase) as E.
      destruct (mapM linalg_inv ref_tile') as [refs|e1] eqn:Hinv;
        [discriminate|].
      injection E as ->.
      destruct (mapM_raise _ _ _ Hinv) as (m' & Hm' & Hraise).
      exists data', ref_tile', m', e1. auto.
    + intros l Hl. now rewrite nth_error_app1.
  - intros Hok.
    destruct (mapM (_normalized_data_over linalg_inv self) a) as [out|e] eqn:Hall.
    + exists out. rewrite (Hout out eq_refl) in Hrun. split; [exact Hrun|].
      exact (mapM_length _ _ _ Hall).
    + exfalso. destruct (mapM_raise _ _ _ Hall) as (data & Hin & Hd).
      destruct (Hcases data Hin) as (ref_tile & Hget & Hcase).
      pose proof (eq_trans (eq_sym Hd) Hcase) as E.
      destruct (mapM linalg_inv ref_tile) as [refs|e1] eqn:Hinv;
        [discriminate|].
      destruct (mapM_raise _ _ _ Hinv) as (m & Hm & Hraise).
      destruct (Hok data ref_tile m Hin Hget Hm) as (m' & Hm').
      rewrite Hm' in Hraise. discriminate.
Qed.

Lemma sample_singular_ref_shape :
  forall data, In data Sample.gains_singular_ref ->
    rectangular data = true /\
    exists ref_tile, getitem data (gains_ind_for 1) = Ok ref_tile.
Proof.
  intros data [<-|[<-|[]]]; (split; [reflexivity | eexists; reflexivity]).
Qed.

Lemma normalized_gains_inv_error_aborts_witness :
  fst (normalized_gains_over inv Sample.self1 [Sample.gains_singular_ref])
  = Raise LinAlgError.
Proof.
  destruct (proj1 (normalized_gains_inv_error_aborts
                     inv Sample.self1 0%nat [Sample.gains_singular_ref]
                     Sample.gains_singular_ref 1%Z
                     eq_refl eq_refl eq_refl sample_singular_ref_shape))
    as ((data' & ref_tile' & m' & e' & _ & _ & _ & Hm' & Hrun) & _).
  - exists [[Sample.m_num; Sample.m_num]; [Sample.m_singular; jidentity];
            [Sample.m_num; Sample.m_num]],
           [Sample.m_singular; jidentity], Sample.m_singular, LinAlgError.
    repeat split; cbn; auto.
  - rewrite Hrun. f_equal. apply inv_raises in Hm'. tauto.
Defined.

Lemma iterate_refant_scans_backward_witness :
  let self := init_tiles Sample.tiles [] in
  let self' := init_tiles Sample.tiles_all_flagged [] in
  getattr self "antenna_flags" =
    Ok (VInts (map t_flag (tile_data Sample.tiles))) /\
  getattr self "antenna" =
    Ok (VInts (map t_antenna (tile_data Sample.tiles))) /\
  (length (tile_data Sample.tiles) < 4)%nat /\
  _iterate_refant 4 self = Some (Ok 1%Z) /\
  _iterate_refant 4 self' = Some (Raise IndexError).
Proof.
  split; [reflexivity|]. split; [reflexivity|]. split; [cbn; lia|].
  split.
  - apply (iterate_refant_scans_backward
             (init_tiles Sample.tiles []) (tile_data Sample.tiles) 4);
      [reflexivity | reflexivity | cbn; lia].
  - apply (iterate_refant_scans_backward
             (init_tiles Sample.tiles_all_flagged [])
             (tile_data Sample.tiles_all_flagged) 4);
      [reflexivity | reflexivity | cbn; lia].
Defined.

(** ** The explicit reference antenna *)

(** [__init__] sets the attribute [antenna_flags]; no attribute is named
    [antenna_flag]. *)
Lemma getattr_antenna_flag_init_tiles (t : tile_table) (self : obj) :
  getattr self "antenna_flag" = Raise (AttributeError "antenna_flag") ->
  getattr (init_tiles t self) "antenna_flag" =
  Raise (AttributeError "antenna_flag").
Proof.
  intros H. unfold init_tiles.
  destruct (has_field "Antenna" _), (has_field "TileName" _),
    (has_field "Flag" _); cbn; exact H.
Qed.

(** Whatever the table and whatever antenna is supplied, flagged or not,
    [_check_refant] stops at the attribute it reads, and [__init__] with
    it, before any normalization. *)
Lemma init_explicit_refant_attribute_error
  (fuel : nat) (hd : hdus) (r : Z) (h : heap) :
  __init__ fuel hd true (Some r) h =
  Some (Raise (AttributeError "antenna_flag"), h ++ [SOLUTIONS hd]).
Proof.
  unfold __init__. cbv zeta.
  unfold _check_refant.
  cbn [getattr setattr String.eqb Ascii.eqb Bool.eqb Py.bind as_int].
  rewrite getattr_antenna_flag_init_tiles by reflexivity.
  reflexivity.
Qed.

(** C9, evaluated.  Antenna 0 of the sample table is flagged; constructing
    the store with normalization and [ref_antenna=0] raises
    AttributeError for the attribute [antenna_flag], not the
    AssertionError of [assert flag == 0], and so does the unflagged
    antenna 1.  No array but the parsed one is in the heap: normalization
    has not begun. *)
Theorem init_flagged_refant_raises_attribute_error :
  getitem (map t_flag (tile_data (TILES SampleInit.hd))) 0 = Ok 1%Z /\
  __init__ 4 SampleInit.hd true (Some 0%Z) [] =
    Some (Raise (AttributeError "antenna_flag"), [SOLUTIONS SampleInit.hd]) /\
  getitem (map t_flag (tile_data (TILES SampleInit.hd))) 1 = Ok 0%Z /\
  __init__ 4 SampleInit.hd true (Some 1%Z) [] =
    Some (Raise (AttributeError "antenna_flag"), [SOLUTIONS SampleInit.hd]).
Proof.
  repeat split; try reflexivity; apply init_explicit_refant_attribute_error.
Qed.

(** Equal structures of rationals: compared part by part, and the
    rationals by their fractions. *)
Ltac qc_eq :=
  repeat match goal with
         | |- @eq Qc _ _ => apply Qc_is_canon; reflexivity
         | |- _ => progress f_equal
         end.

(** ** Antenna pairs *)

(** [gains_for_antnum]: the heap is left as it is, and the result is the
    row of the antenna in every timeblock of the array the instance holds. *)
Lemma gains_for_antnum_run (self : obj) (antnum : Z) (h : heap) :
  gains_for_antnum self antnum h =
  (a <- fst ((g <~ attr_array self "gain_array" ;; deref g) h) ;;
   mapM (fun tb : Timeblock => getitem tb (gains_ind_for antnum)) a, h).
Proof.
  unfold gains_for_antnum, bindM, attr_array, lift, deref.
  destruct (v <- getattr self "gain_array" ;; as_array v) as [g|e];
    [|reflexivity].
  destruct (nth_error h g); reflexivity.
Qed.





(** ** The metrics engine *)

Import CalMetrics Stat.

(** C7.  With threshold 3 the modified z-score of the RMS series
    [1, 1, 1, 1, 50] flags index 4 and no other (the scores are NaN four
    times and +inf once, the median absolute deviation being 0), and that
    of [1, 1, 1, 1, 1] flags none (every score is NaN). *)
Theorem modz_flags_outlier_only :
  modz [1; 1; 1; 1; 50]%float = [nan; nan; nan; nan; infinity]%float /\
  outliers 3 (modz [1; 1; 1; 1; 50]%float) = [4%Z] /\
  modz [1; 1; 1; 1; 1]%float = [nan; nan; nan; nan; nan]%float /\
  outliers 3 (modz [1; 1; 1; 1; 1]%float) = [].
Proof.
  repeat split; vm_compute; reflexivity.
Qed.

(** ** IEEE 754: where the skewness is NaN *)

Lemma SFsub_self (x : spec_float) :
  SFsub prec emax x x = S754_zero false \/ SFsub prec emax x x = S754_nan.
Proof.
  destruct x as [s|s| |s m e]; cbn.
  - left. destruct s; reflexivity.
  - right. destruct s; reflexivity.
  - right. reflexivity.
  - left. rewrite Z.min_id.
    assert (H : forall z, IntDef.Z.sub z z = 0%Z) by (intros; apply Z.sub_diag).
    unfold shl_align. rewrite !H. reflexivity.
Qed.

Lemma is_nan_spec (x : float) :
  PrimFloat.is_nan x = true <-> Prim2SF x = S754_nan.
Proof.
  unfold PrimFloat.is_nan. rewrite eqb_spec.
  destruct (Prim2SF x) as [s|s| |s m e] eqn:E; cbn.
  - destruct s; split; discriminate.
  - destruct s; split; discriminate.
  - split; reflexivity.
  - unfold SFeqb, SFcompare.
    rewrite Z.compare_refl, Pos.compare_refl. destruct s; cbn; split; discriminate.
Qed.

Lemma eqb_zero_spec (s : float) :
  (s =? 0)%float = true -> exists b, Prim2SF s = S754_zero b.
Proof.
  rewrite eqb_spec. change (Prim2SF 0) with (S754_zero false).
  destruct (Prim2SF s) as [b|b| |b m e]; cbn; try discriminate; eauto.
  - destruct b; discriminate.
  - destruct b; discriminate.
Qed.

(** With mean equal to median and a zero standard deviation the
    coefficient is 0/0 (or NaN/0): NaN. *)
Lemma pearson_zero_std (m s : float) :
  (s =? 0)%float = true -> PrimFloat.is_nan (pearson m m s) = true.
Proof.
  intros Hs. destruct (eqb_zero_spec s Hs) as (b & Hb).
  apply is_nan_spec. unfold pearson.
  rewrite div_spec, mul_spec, sub_spec, Hb.
  change (Prim2SF 3) with (S754_finite false 6755399441055744 (-51)).
  unfold SF64div, SF64mul, SF64sub.
  destruct (SFsub_self (Prim2SF m)) as [-> | ->]; reflexivity.
Qed.

(** ** Variances of the short baselines *)

Import Seq.

Lemma imap_from_ext {A B} (s : nat) (f g : nat -> A -> B) (l : list A) :
  (forall t x, (s <= t)%nat -> f t x = g t x) ->
  imap_from s f l = imap_from s g l.
Proof.
  revert s. induction l as [|x l IH]; intros s H; cbn; [reflexivity|].
  rewrite (H s x (le_n s)). f_equal. apply IH. intros t y Ht. apply H. lia.
Qed.

Lemma imap_from_imap_from {A B C} (s : nat) (f : nat -> B -> C)
      (g : nat -> A -> B) (l : list A) :
  imap_from s f (imap_from s g l) = imap_from s (fun t x => f t (g t x)) l.
Proof.
  revert s. induction l as [|x l IH]; intros s; cbn; [reflexivity|].
  now rewrite IH.
Qed.

Lemma map_imap_from {A B C} (s : nat) (f : B -> C) (g : nat -> A -> B)
      (l : list A) :
  map f (imap_from s g l) = imap_from s (fun t x => f (g t x)) l.
Proof.
  revert s. induction l as [|x l IH]; intros s; cbn; [reflexivity|].
  now rewrite IH.
Qed.

Lemma length_imap_from {A B} (s : nat) (f : nat -> A -> B) (l : list A) :
  length (imap_from s f l) = length l.
Proof.
  revert s. induction l as [|x l IH]; intros s; cbn; [reflexivity|].
  now rewrite IH.
Qed.

Lemma Forall_imap_from {A B} (P : B -> Prop) (s : nat) (f : nat -> A -> B)
      (l : list A) :
  (forall t x, In x l -> P (f t x)) -> Forall P (imap_from s f l).
Proof.
  revert s. induction l as [|x l IH]; intros s H; cbn; constructor.
  - apply H. now left.
  - apply IH. intros t y Hy. apply H. now right.
Qed.

Lemma imap_from_repeat {A B} (s n : nat) (f : nat -> A -> B) (x : A) :
  imap_from s f (repeat x n) = map (fun t => f t x) (seq s n).
Proof.
  revert s. induction n as [|n IH]; intros s; cbn; [reflexivity|].
  now rewrite IH.
Qed.

Section FillVariances.

Variable self : engine.

Let z4 : list float := repeat 0%float 4.

Lemma set_axis1_next (i k : nat) (pre : list (list (list float)))
      (v : list (list float)) (s : nat) :
  length v = length pre ->
  Forall (fun p => length p = i) pre ->
  map (fun '(rows, row) => update rows i row)
      (combine (map (fun p => p ++ z4 :: repeat z4 k) pre) v) =
  imap_from s (fun t p => (p ++ [nth (t - s) v []]) ++ repeat z4 k) pre.
Proof.
  revert v s. induction pre as [|p pre IH]; intros [|x v] s Hlen Hpre;
    try discriminate; [reflexivity|].
  inversion Hpre as [|? ? Hp Hpre']; subst.
  cbn [map combine imap_from]. rewrite Nat.sub_diag. cbn [nth].
  rewrite update_app_here, <- app_assoc. cbn [app]. f_equal.
  rewrite (IH v (S s)) by (cbn in Hlen; auto; lia).
  apply imap_from_ext. intros t y Ht.
  replace (t - s)%nat with (S (t - S s)) by lia. reflexivity.
Qed.

Lemma fill_variances_spec (bls : list (Z * Z)) (i : nat)
      (pre : list (list (list float))) :
  Forall (fun p => length p = i) pre ->
  Forall (fun bl => length (variance_for_antpair self bl) = length pre /\
                    forallb (fun row => (length row =? 4)%nat)
                            (variance_for_antpair self bl) = true) bls ->
  fill_variances self i bls (map (fun p => p ++ repeat z4 (length bls)) pre) =
  Ok (imap_from 0
        (fun t p => p ++ map (fun bl => nth t (variance_for_antpair self bl) [])
                             bls)
        pre).
Proof.
  revert i pre. induction bls as [|bl bls IH]; intros i pre Hpre Hsh.
  - cbn. f_equal. clear Hpre Hsh. generalize 0%nat.
    induction pre as [|p pre IHp]; intros s; cbn; [reflexivity|].
    f_equal. apply IHp.
  - inversion Hsh as [|? ? (Hlen & Hrows) Hsh']; subst.
    cbn [fill_variances length repeat].
    unfold set_axis1. rewrite length_map, Hlen, Nat.eqb_refl, Hrows.
    cbn [andb Py.bind].
    rewrite (set_axis1_next i (length bls) pre _ 0 Hlen Hpre).
    rewrite <- map_imap_from with (f := fun p => p ++ repeat z4 (length bls))
                                  (g := fun t p => p ++ [nth (t - 0) (variance_for_antpair self bl) []]).
    rewrite (IH (S i)).
    + f_equal. rewrite imap_from_imap_from. apply imap_from_ext.
      intros t p _. rewrite Nat.sub_0_r, <- app_assoc. reflexivity.
    + apply Forall_imap_from. intros t p Hp.
      rewrite Forall_forall in Hpre. rewrite length_app, (Hpre p Hp).
      cbn. lia.
    + rewrite length_imap_from. exact Hsh'.
Qed.

End FillVariances.


Lemma variance_for_baselines_less_than_spec (self : engine) (uv_cut : float) :
  variances_shaped self uv_cut = true ->
  variance_for_baselines_less_than self uv_cut =
  Ok (map (fun t => map (fun bl => nth t (variance_for_antpair self bl) [])
                        (baselines_less_than self uv_cut))
          (seq 0 (Ntime self))).
Proof.
  intros Hsh. unfold variance_for_baselines_less_than, zeros3.
  replace (repeat (repeat (repeat 0%float 4) (length (baselines_less_than self uv_cut)))
                  (Ntime self))
    with (map (fun p : list (list float) =>
                 p ++ repeat (repeat 0%float 4)
                             (length (baselines_less_than self uv_cut)))
              (repeat [] (Ntime self)))
    by (rewrite map_repeat; reflexivity).
  rewrite fill_variances_spec.
  - rewrite imap_from_repeat. reflexivity.
  - apply Forall_forall. intros p Hp. apply repeat_spec in Hp. now subst.
  - apply Forall_forall. intros bl Hbl.
    unfold variances_shaped in Hsh. rewrite forallb_forall in Hsh.
    specialize (Hsh bl Hbl). apply andb_true_iff in Hsh.
    destruct Hsh as [Hn Hrows]. apply Nat.eqb_eq in Hn.
    rewrite repeat_length. auto.
Qed.

Lemma map2_map_map {A B C D} (h : B -> C -> D) (f : A -> B) (g : A -> C)
      (l : list A) :
  map2 h (map f l) (map g l) = map (fun x => h (f x) (g x)) l.
Proof.
  unfold map2. induction l as [|x l IH]; cbn; [reflexivity|]. now rewrite IH.
Qed.

Lemma combine_map_map {A B C} (f : A -> B) (g : A -> C) (l : list A) :
  combine (map f l) (map g l) = map (fun x => (f x, g x)) l.
Proof. induction l as [|x l IH]; cbn; [reflexivity|]. now rewrite IH. Qed.

Lemma mapM_map {A B C} (f : B -> result C) (g : A -> B) (l : list A) :
  mapM f (map g l) = mapM (fun x => f (g x)) l.
Proof. induction l as [|x l IH]; cbn; [reflexivity|]. now rewrite IH. Qed.

Lemma mapM_ext_in {A B} (f g : A -> result B) (l : list A) :
  (forall x, In x l -> f x = g x) -> mapM f l = mapM g l.
Proof.
  induction l as [|x l IH]; intros H; cbn; [reflexivity|].
  rewrite (H x) by now left. rewrite IH; [reflexivity|].
  intros y Hy. apply H. now right.
Qed.

(** What [skewness_across_uvcut] returns: for each of the four
    polarizations, the NaN-ignoring maximum over the timeblocks of the
    coefficient computed across the pairs. *)
Lemma skewness_across_uvcut_spec (self : engine) (uv_cut : float) :
  variances_shaped self uv_cut = true ->
  skewness_across_uvcut self uv_cut =
  mapM (fun p => nanmax (map (fun t => skew_entry self uv_cut t p)
                             (seq 0 (Ntime self))))
       (seq 0 4).
Proof.
  intros Hsh. unfold skewness_across_uvcut.
  rewrite (variance_for_baselines_less_than_spec self uv_cut Hsh).
  cbn [Py.bind]. unfold axis1. rewrite !map_map.
  rewrite combine_map_map, map2_map_map.
  unfold axis0. rewrite mapM_map.
  apply mapM_ext_in. intros p Hp. f_equal.
  rewrite map_map. apply map_ext. intros t.
  rewrite combine_map_map, map2_map_map.
  unfold skew_entry, pair_variances.
  cbn in Hp.
  destruct Hp as [<-|[<-|[<-|[<-|[]]]]]; cbn [seq map nth];
    rewrite !map_map; reflexivity.
Qed.

(** C5, as the specification states it, fails.  On the sample engine the
    per-pair variances averaged across the pairs are [3, 1] for XX over
    the two timeblocks: their mean equals their median, so Pearson's
    coefficient across the timeblocks is 0 for every polarization and the
    maximum over the polarizations is 0.  The code returns one value for
    each polarization, each the maximum over the timeblocks of a
    coefficient taken across the pairs, and none of the four is 0.  In
    the second timeblock all pairs have the same variance: the standard
    deviation is 0 and the entry is NaN, yet the result is a number. *)
Lemma skewness_not_across_timeblocks :
  variances_shaped SampleMetrics.eng 40 = true /\
  skewness_as_specified SampleMetrics.eng 40 = Ok 0%float /\
  fmap (map (fun x => (1 <? x)%float))
       (skewness_across_uvcut SampleMetrics.eng 40) =
    Ok [true; true; true; true] /\
  (nanstd (pair_variances SampleMetrics.eng 40 1 0) =? 0)%float = true /\
  PrimFloat.is_nan (skew_entry SampleMetrics.eng 40 1 0) = true.
Proof. repeat split; vm_compute; reflexivity. Qed.

(** C5, amended.  [skewness_across_uvcut] takes the antenna pairs that the
    metadata provider returns for the cutoff; for every timeblock and
    polarization it computes the NaN-aware mean, median and standard
    deviation of the per-pair variances across those pairs and from them
    3 * (mean - median) / std; it returns, for each of the four
    polarizations, the maximum of that coefficient over the timeblocks,
    NaN entries ignored.  An entry whose standard deviation is zero and
    whose mean equals its median is NaN, and nothing is raised for it. *)
Theorem skewness_across_uvcut_per_timeblock (self : engine) (uv_cut : float) :
  variances_shaped self uv_cut = true ->
  skewness_across_uvcut self uv_cut =
    mapM (fun p => nanmax (map (fun t => skew_entry self uv_cut t p)
                               (seq 0 (Ntime self))))
         (seq 0 4)
  /\
  (forall t p,
     let v := pair_variances self uv_cut t p in
     (nanstd v =? 0)%float = true ->
     nanmean v = nanmedian v ->
     PrimFloat.is_nan (skew_entry self uv_cut t p) = true).
Proof.
  intros Hsh. split.
  - now apply skewness_across_uvcut_spec.
  - intros t p v Hstd Hmean. unfold skew_entry. fold v.
    rewrite Hmean. now apply pearson_zero_std.
Qed.

Lemma skewness_across_uvcut_per_timeblock_witness :
  variances_shaped SampleMetrics.eng 40 = true /\
  skewness_across_uvcut SampleMetrics.eng 40 =
    mapM (fun p => nanmax (map (fun t => skew_entry SampleMetrics.eng 40 t p)
                               (seq 0 2)))
         (seq 0 4).
Proof.
  split; [reflexivity|].
  apply (skewness_across_uvcut_per_timeblock SampleMetrics.eng 40).
  reflexivity.
Defined.

(** ** The delay transform of one slice *)

Import Spectral.

Lemma take_where_from {A} (data : list complex) (l pre : list A) (s : nat) :
  length pre = s -> length l = length data ->
  take (pre ++ l) (where_from s (fun c => negb (isnan c)) data) =
  Ok (select data l).
Proof.
  revert l pre s.
  induction data as [|x data IH]; intros [|y l] pre s Hs Hl; try discriminate;
    [reflexivity|].
  cbn [where_from select]. injection Hl as Hl.
  assert (Htl : take (pre ++ y :: l)
                     (where_from (S s) (fun c => negb (isnan c)) data)
                = Ok (select data l)).
  { replace (pre ++ y :: l) with ((pre ++ [y]) ++ l)
      by (rewrite <- app_assoc; reflexivity).
    apply IH; [rewrite length_app; cbn; lia | exact Hl]. }
  destruct (isnan x); cbn [negb]; [exact Htl|].
  unfold take in *. cbn [mapM].
  rewrite nth_error_app2, <- Hs, Nat.sub_diag by lia. cbn [nth_error Py.bind].
  rewrite Hs, Htl. reflexivity.
Qed.

Lemma length_where_from_select {A} (data : list complex) (l : list A) (s : nat) :
  length l = length data ->
  length (where_from s (fun c => negb (isnan c)) data) = length (select data l).
Proof.
  revert l s. induction data as [|x data IH]; intros [|y l] s Hl;
    try discriminate; [reflexivity|].
  cbn [where_from select]. injection Hl as Hl.
  destruct (isnan x); cbn [negb length]; auto.
Qed.

Lemma put_where_from (data out vals pre : list complex) (s : nat) :
  length pre = s -> length out = length data ->
  put (pre ++ out) (where_from s (fun c => negb (isnan c)) data) vals =
  pre ++ put_nums data out vals.
Proof.
  revert out vals pre s.
  induction data as [|x data IH]; intros [|o out] vals pre s Hs Hl;
    try discriminate; [reflexivity|].
  cbn [where_from put_nums]. injection Hl as Hl.
  destruct (isnan x); cbn [negb].
  - replace (pre ++ o :: out) with ((pre ++ [o]) ++ out)
      by (rewrite <- app_assoc; reflexivity).
    rewrite IH by (rewrite ?length_app; cbn; lia).
    rewrite <- app_assoc. reflexivity.
  - destruct vals as [|v vals]; [reflexivity|].
    cbn [put]. rewrite <- Hs, update_app_here.
    replace (pre ++ v :: out) with ((pre ++ [v]) ++ out)
      by (rewrite <- app_assoc; reflexivity).
    rewrite IH by (rewrite ?length_app; cbn; lia).
    rewrite <- app_assoc. reflexivity.
Qed.

Lemma fill_where_from (data out pre : list complex) (v : complex) (s : nat) :
  length pre = s -> length out = length data ->
  fill_inds (pre ++ out) (where_from s isnan data) v =
  pre ++ fill_nans data out v.
Proof.
  revert out pre s.
  induction data as [|x data IH]; intros [|o out] pre s Hs Hl;
    try discriminate; [reflexivity|].
  cbn [where_from fill_nans]. injection Hl as Hl.
  destruct (isnan x).
  - unfold fill_inds in *. cbn [fold_left].
    rewrite <- Hs, update_app_here.
    replace (pre ++ v :: out) with ((pre ++ [v]) ++ out)
      by (rewrite <- app_assoc; reflexivity).
    rewrite IH by (rewrite ?length_app; cbn; lia).
    rewrite <- app_assoc. reflexivity.
  - replace (pre ++ o :: out) with ((pre ++ [o]) ++ out)
      by (rewrite <- app_assoc; reflexivity).
    rewrite IH by (rewrite ?length_app; cbn; lia).
    rewrite <- app_assoc. reflexivity.
Qed.

Lemma length_put_nums (data out vals : list complex) :
  length (put_nums data out vals) = length out.
Proof.
  revert out vals. induction data as [|x data IH]; intros [|o out] vals;
    try reflexivity.
  cbn [put_nums]. destruct (isnan x); cbn [length]; [now rewrite IH|].
  destruct vals; cbn [length]; [reflexivity | now rewrite IH].
Qed.

Lemma fill_put_scatter (data out vals : list complex) :
  length out = length data ->
  length vals = length (select data data) ->
  fill_nans data (put_nums data out vals) np_nan = scatter data vals.
Proof.
  revert out vals. induction data as [|x data IH]; intros [|o out] vals Hl Hv;
    try discriminate; [reflexivity|].
  injection Hl as Hl. cbn [select scatter put_nums] in Hv |- *.
  destruct (isnan x) eqn:E; cbn [fill_nans length] in Hv |- *; rewrite ?E.
  - f_equal. now apply IH.
  - destruct vals as [|v vals]; [discriminate|].
    cbn [fill_nans]. rewrite ?E. f_equal. apply IH; [exact Hl|].
    now injection Hv.
Qed.

Lemma length_fftshift {A} (d : list A) : length (fftshift d) = length d.
Proof.
  unfold fftshift. rewrite length_app, length_skipn, length_firstn.
  assert (length d / 2 <= length d)%nat by (apply Nat.Div0.div_le_upper_bound; lia).
  lia.
Qed.

Lemma length_select_both {A B} (data : list complex) (l : list A) (l' : list B) :
  length l = length data -> length l' = length data ->
  length (select data l) = length (select data l').
Proof.
  revert l l'. induction data as [|x data IH]; intros [|y l] [|y' l'] H H';
    try discriminate; [reflexivity|].
  cbn [select]. injection H as H. injection H' as H'.
  destruct (isnan x); cbn [length]; auto.
Qed.

Lemma map_const_length {A B C} (c : C) (l : list A) (l' : list B) :
  length l = length l' -> map (fun _ => c) l = map (fun _ => c) l'.
Proof.
  revert l'. induction l as [|x l IH]; intros [|y l'] H; try discriminate;
    [reflexivity|].
  cbn. f_equal. apply IH. now injection H.
Qed.

Section Slice.

Variable fft : list complex -> list complex.
Hypothesis fft_length : forall x, length (fft x) = length x.

(** The [try] block and its handler on one slice compute [spectrum]; no
    exception leaves them when the window has a sample for every
    channel. *)
Lemma fft_slice_spectrum (window : list xnum) (data out : list complex) :
  length window = length data ->
  length out = length data ->
  fft_slice fft window data out = Ok (spectrum fft window data).
Proof.
  intros Hw Ho. unfold fft_slice, spectrum, _filter_nans.
  pose proof (take_where_from data data [] 0 eq_refl eq_refl) as Hd.
  pose proof (take_where_from data window [] 0 eq_refl Hw) as Hwin.
  cbn [app] in Hd, Hwin. rewrite Hd, Hwin.
  cbn [Py.bind].
  pose proof (length_select_both data data window eq_refl Hw) as Hsel.
  destruct (select data data) as [|x nums] eqn:Enums.
  - cbn. f_equal. now apply map_const_length.
  - destruct (select data window) as [|w ws] eqn:Ews; [discriminate|].
    unfold np_fft. unfold map2 at 1. cbn [combine map Py.bind].
    change (window_mul x w :: map (fun '(x0, y) => window_mul x0 y) (combine nums ws))
      with (map2 window_mul (x :: nums) (w :: ws)).
    unfold setitem_inds.
    rewrite (length_where_from_select data data 0 eq_refl), Enums.
    rewrite length_fftshift, fft_length, length_map2 by exact Hsel.
    rewrite Nat.eqb_refl. cbn [Py.bind]. f_equal.
    match goal with
    | |- fill_inds (put out _ ?vals) _ _ = _ =>
        pose proof (put_where_from data out vals [] 0 eq_refl Ho) as Hput;
        pose proof (fill_where_from data (put_nums data out vals) [] np_nan 0
                      eq_refl) as Hfill
    end.
    cbn [app] in Hput, Hfill. rewrite Hput, Hfill
      by (rewrite length_put_nums; exact Ho).
    apply fill_put_scatter; [exact Ho|].
    rewrite length_fftshift, fft_length, length_map2 by exact Hsel.
    now rewrite Enums.
Qed.

End Slice.

(** ** The loops of [gains_fft] *)

Lemma length_update {A} (l : list A) (k : nat) (x : A) :
  length (update l k x) = length l.
Proof.
  revert k. induction l as [|y l IH]; intros [|k]; cbn; auto.
Qed.

Lemma nth_error_update_eq {A} (l : list A) (k : nat) (x : A) :
  (k < length l)%nat -> nth_error (update l k x) k = Some x.
Proof.
  revert k. induction l as [|y l IH]; intros [|k] H; cbn in *; try lia;
    [reflexivity|].
  apply IH. lia.
Qed.

Lemma nth_error_update_neq {A} (l : list A) (k k' : nat) (x : A) :
  k <> k' -> nth_error (update l k x) k' = nth_error l k'.
Proof.
  revert k k'. induction l as [|y l IH]; intros [|k] [|k'] H; cbn;
    try reflexivity; try congruence.
  apply IH. congruence.
Qed.

Lemma Forall_update {A} (P : A -> Prop) (l : list A) (k : nat) (x : A) :
  Forall P l -> P x -> Forall P (update l k x).
Proof.
  intros Hl Hx. revert k. induction Hl as [|y l Hy Hl IH]; intros [|k]; cbn;
    constructor; auto.
Qed.

Lemma at_Some {A} (l : list A) (k : nat) :
  (k < length l)%nat -> exists x, at_ l k = Ok x /\ nth_error l k = Some x.
Proof.
  intros H. unfold at_. destruct (nth_error l k) eqn:E; [eauto|].
  apply nth_error_None in E. lia.
Qed.

Lemma map_get_set_same (j : pol) (tile : Tile) (vals : list complex) :
  length vals = length tile ->
  map (get j) (map2 (fun m v => set j v m) tile vals) = vals.
Proof.
  unfold map2. revert vals.
  induction tile as [|m tile IH]; intros [|v vals] H; try discriminate;
    [reflexivity|].
  cbn. rewrite IH by now injection H. destruct j; reflexivity.
Qed.

Lemma map_get_set_other (j j' : pol) (tile : Tile) (vals : list complex) :
  j' <> j -> length vals = length tile ->
  map (get j') (map2 (fun m v => set j v m) tile vals) = map (get j') tile.
Proof.
  intros Hj. unfold map2. revert vals.
  induction tile as [|m tile IH]; intros [|v vals] H; try discriminate;
    [reflexivity|].
  cbn. rewrite IH by now injection H.
  destruct j, j'; try congruence; reflexivity.
Qed.

Lemma pol_eq_dec (j j' : pol) : {j = j'} + {j <> j'}.
Proof. decide equality. Defined.

Lemma key_eq_dec (k k' : nat * (nat * pol)) : {k = k'} + {k <> k'}.
Proof.
  decide equality; [decide equality; apply pol_eq_dec || apply Nat.eq_dec
                   | apply Nat.eq_dec].
Defined.

Lemma has_shape_slice (sh : nat * nat * nat) (a : GainArray) (t i : nat)
      (j : pol) :
  has_shape sh a -> (t < fst (fst sh))%nat -> (i < snd (fst sh))%nat ->
  exists tb tile,
    nth_error a t = Some tb /\ nth_error tb i = Some tile /\
    length tb = snd (fst sh) /\ length tile = snd sh /\
    slice a t i j = Ok (map (get j) tile).
Proof.
  intros (Hn0 & Hall) Ht Hi.
  destruct (at_Some a t) as (tb & Hat & Htb); [lia|].
  rewrite Forall_forall in Hall.
  destruct (Hall tb (nth_error_In _ _ Htb)) as (Hn1 & Htiles).
  destruct (at_Some tb i) as (tile & Hati & Htile); [lia|].
  rewrite Forall_forall in Htiles.
  pose proof (Htiles tile (nth_error_In _ _ Htile)) as Hn2.
  exists tb, tile. repeat split; auto.
  unfold slice. rewrite Hat. cbn [Py.bind]. rewrite Hati. reflexivity.
Qed.

(** Writing one slice: the slice holds the values, every other slice is
    as it was, and the shape is kept. *)
Lemma set_slice_frame (sh : nat * nat * nat) (fd : GainArray) (t i : nat)
      (j : pol) (vals : list complex) :
  has_shape sh fd -> (t < fst (fst sh))%nat -> (i < snd (fst sh))%nat ->
  length vals = snd sh ->
  exists fd',
    set_slice fd t i j vals = Ok fd' /\ has_shape sh fd' /\
    slice fd' t i j = Ok vals /\
    forall t' i' j', (t', (i', j')) <> (t, (i, j)) ->
                     slice fd' t' i' j' = slice fd t' i' j'.
Proof.
  intros Hsh Ht Hi Hv.
  destruct (has_shape_slice sh fd t i j Hsh Ht Hi)
    as (tb & tile & Htb & Htile & Hn1 & Hn2 & _).
  destruct Hsh as (Hn0 & Hall).
  assert (Hat : at_ fd t = Ok tb) by (unfold at_; now rewrite Htb).
  assert (Hati : at_ tb i = Ok tile) by (unfold at_; now rewrite Htile).
  set (tile' := map2 (fun m v => set j v m) tile vals).
  exists (update fd t (update tb i tile')).
  assert (Hlen' : length tile' = snd sh).
  { unfold tile'. rewrite length_map2; congruence. }
  split; [|split; [|split]].
  - unfold set_slice. rewrite Hat. cbn [Py.bind]. rewrite Hati. cbn [Py.bind].
    rewrite Hv, Hn2, Nat.eqb_refl. reflexivity.
  - split; [now rewrite length_update|].
    apply Forall_update; [exact Hall|].
    split; [now rewrite length_update|].
    rewrite Forall_forall in Hall.
    destruct (Hall tb (nth_error_In _ _ Htb)) as (_ & Htiles).
    apply Forall_update; assumption.
  - unfold slice, at_.
    rewrite nth_error_update_eq by lia. cbn [Py.bind].
    rewrite nth_error_update_eq by lia. cbn [Py.bind].
    unfold tile'. rewrite map_get_set_same by congruence. reflexivity.
  - intros t' i' j' Hne. unfold slice, at_.
    destruct (Nat.eq_dec t' t) as [->|Ht'].
    + rewrite nth_error_update_eq by lia. rewrite Htb. cbn [Py.bind].
      destruct (Nat.eq_dec i' i) as [->|Hi'].
      * rewrite nth_error_update_eq by lia. rewrite Htile. cbn [Py.bind].
        unfold tile'. rewrite map_get_set_other; [reflexivity| |congruence].
        intros ->. now apply Hne.
      * rewrite nth_error_update_neq by congruence. reflexivity.
    + rewrite nth_error_update_neq by congruence. reflexivity.
Qed.

Section FoldFrame.

Variables (K S V : Type).
Variable read : K -> S -> V.
Variable step : K -> S -> result S.
Variable val : K -> V.
Variable inv : S -> Prop.
Variable dom : K -> Prop.
Hypothesis K_eq_dec : forall k k' : K, {k = k'} + {k <> k'}.
Hypothesis step_ok :
  forall k s, dom k -> inv s ->
    exists s', step k s = Ok s' /\ inv s' /\ read k s' = val k /\
               forall k', k' <> k -> read k' s' = read k' s.

(** A loop whose every step sets its own cell and leaves the others:
    it completes, each visited cell holds its value and each other cell
    what it held. *)
Lemma foldM_frame (ks : list K) (s : S) :
  Forall dom ks -> inv s ->
  exists s', foldM step ks s = Ok s' /\ inv s' /\
             (forall k, In k ks -> read k s' = val k) /\
             (forall k, ~ In k ks -> read k s' = read k s).
Proof.
  revert s. induction ks as [|k ks IH]; intros s Hdom Hinv.
  - exists s. cbn. repeat split; auto. intros k [].
  - inversion Hdom as [|? ? Hk Hks]; subst.
    destruct (step_ok k s Hk Hinv) as (s1 & Hstep & Hinv1 & Hread & Hframe).
    destruct (IH s1 Hks Hinv1) as (s' & Hfold & Hinv' & Hin & Hout).
    exists s'. cbn [foldM]. rewrite Hstep. cbn [Py.bind].
    repeat split; auto.
    + intros k' [<-|Hk'].
      * destruct (in_dec K_eq_dec k ks) as [Hi|Hn]; [now apply Hin|].
        rewrite (Hout k Hn). exact Hread.
      * now apply Hin.
    + intros k' Hn. rewrite Hout by (intros H; apply Hn; now right).
      apply Hframe. intros ->. apply Hn. now left.
Qed.

End FoldFrame.

Lemma foldM_app {K S} (step : K -> S -> result S) (l l' : list K) (s : S) :
  foldM step (l ++ l') s = (s' <- foldM step l s ;; foldM step l' s').
Proof.
  revert s. induction l as [|k l IH]; intros s; cbn; [reflexivity|].
  destruct (step k s); cbn; [apply IH | reflexivity].
Qed.

Lemma foldM_nested {K1 K2 S} (f : K1 -> K2 -> S -> result S)
      (ks1 : list K1) (ks2 : list K2) (s : S) :
  foldM (fun k1 => foldM (f k1) ks2) ks1 s =
  foldM (fun k => f (fst k) (snd k)) (list_prod ks1 ks2) s.
Proof.
  revert s. induction ks1 as [|k1 ks1 IH]; intros s; cbn [foldM list_prod];
    [reflexivity|].
  rewrite foldM_app.
  assert (H : forall s0, foldM (fun k => f (fst k) (snd k))
                               (map (fun y => (k1, y)) ks2) s0
                         = foldM (f k1) ks2 s0).
  { clear IH. induction ks2 as [|k2 ks2 IH2]; intros s0; cbn; [reflexivity|].
    destruct (f k1 k2 s0); cbn; [apply IH2 | reflexivity]. }
  rewrite H. destruct (foldM (f k1) ks2 s); cbn; [apply IH | reflexivity].
Qed.

Lemma foldM_ext {K S} (f g : K -> S -> result S) (ks : list K) (s : S) :
  (forall k s0, f k s0 = g k s0) -> foldM f ks s = foldM g ks s.
Proof.
  intros H. revert s. induction ks as [|k ks IH]; intros s; cbn; [reflexivity|].
  rewrite H. destruct (g k s); cbn; auto.
Qed.

Lemma zeros_has_shape (sh : nat * nat * nat) : has_shape sh (zeros sh).
Proof.
  destruct sh as [[n0 n1] n2]. unfold has_shape, zeros. cbn [fst snd].
  split; [apply repeat_length|].
  apply Forall_forall. intros tb Htb. apply repeat_spec in Htb. subst tb.
  split; [apply repeat_length|].
  apply Forall_forall. intros tile Htile. apply repeat_spec in Htile.
  subst tile. apply repeat_length.
Qed.

Lemma slice_in_range (sh : nat * nat * nat) (a : GainArray) (t i : nat)
      (j : pol) (data : list complex) :
  has_shape sh a -> slice a t i j = Ok data ->
  (t < fst (fst sh))%nat /\ (i < snd (fst sh))%nat /\ length data = snd sh.
Proof.
  intros (Hn0 & Hall) Hs. unfold slice, at_ in Hs.
  destruct (nth_error a t) as [tb|] eqn:Et; [|discriminate].
  cbn [Py.bind] in Hs.
  destruct (nth_error tb i) as [tile|] eqn:Ei; [|discriminate].
  cbn [Py.bind] in Hs. injection Hs as <-.
  rewrite Forall_forall in Hall.
  destruct (Hall tb (nth_error_In _ _ Et)) as (Hn1 & Htiles).
  rewrite Forall_forall in Htiles.
  pose proof (Htiles tile (nth_error_In _ _ Ei)) as Hn2.
  assert (t < length a)%nat by (apply nth_error_Some; congruence).
  assert (i < length tb)%nat by (apply nth_error_Some; congruence).
  rewrite length_map. repeat split; lia.
Qed.

Lemma length_scatter (data vals : list complex) :
  length (scatter data vals) = length data.
Proof.
  revert vals. induction data as [|x data IH]; intros vals; [reflexivity|].
  cbn [scatter]. destruct (isnan x); [cbn; now rewrite IH|].
  destruct vals; cbn; now rewrite IH.
Qed.

Lemma nth_error_scatter_nan (data vals : list complex) (c : nat) (x : complex) :
  nth_error data c = Some x -> isnan x = true ->
  nth_error (scatter data vals) c = Some np_nan.
Proof.
  revert vals c. induction data as [|y data IH]; intros vals [|c] Hc Hx;
    try discriminate; cbn [scatter nth_error] in *.
  - injection Hc as ->. now rewrite Hx.
  - destruct (isnan y); [now apply IH|].
    destruct vals; now apply IH.
Qed.

Lemma select_scatter (data vals : list complex) :
  length vals = length (select data data) ->
  select data (scatter data vals) = vals.
Proof.
  revert vals. induction data as [|x data IH]; intros vals Hv.
  - destruct vals; [reflexivity | discriminate].
  - cbn [select scatter] in *. destruct (isnan x) eqn:E.
    + now apply IH.
    + destruct vals as [|v vals]; [discriminate|].
      f_equal. apply IH. now injection Hv.
Qed.

Lemma nth_error_map_const {A B} (c : B) (l : list A) (k : nat) (x : A) :
  nth_error l k = Some x -> nth_error (map (fun _ => c) l) k = Some c.
Proof. intros H. rewrite nth_error_map, H. reflexivity. Qed.

Section GainsFftLoops.

Variable blackmanharris : nat -> list xnum.
Variable fft : list complex -> list complex.
Hypothesis fft_length : forall x, length (fft x) = length x.

Variable a : GainArray.
Variable window : list xnum.
Hypothesis a_shape : has_shape (shape3 a) a.
Hypothesis window_length : length window = snd (shape3 a).

Let key : Type := (nat * (nat * pol))%type.

Let read (k : key) (fd : GainArray) : result (list complex) :=
  slice fd (fst k) (fst (snd k)) (snd (snd k)).

Let val (k : key) : result (list complex) :=
  data <- slice a (fst k) (fst (snd k)) (snd (snd k)) ;;
  Ok (spectrum fft window data).

Let dom (k : key) : Prop :=
  (fst k < fst (fst (shape3 a)))%nat /\
  (fst (snd k) < snd (fst (shape3 a)))%nat.

(** One turn of the innermost loop writes the transform of its own slice
    of the input into the same slice of the output, and nothing else. *)
Lemma fft_step_frame (k : key) (fd : GainArray) :
  dom k -> has_shape (shape3 a) fd ->
  exists fd',
    fft_step fft a window (fst k) (fst (snd k)) (snd (snd k)) fd = Ok fd' /\
    has_shape (shape3 a) fd' /\ read k fd' = val k /\
    forall k', k' <> k -> read k' fd' = read k' fd.
Proof.
  destruct k as [t [i j]]. unfold dom, read, val. cbn [fst snd].
  intros (Ht & Hi) Hfd.
  destruct (has_shape_slice _ a t i j a_shape Ht Hi)
    as (tb & tile & _ & _ & _ & Hn2 & Hdata).
  destruct (has_shape_slice _ fd t i j Hfd Ht Hi)
    as (tb' & tile' & _ & _ & _ & Hn2' & Hout).
  assert (Hslice : fft_slice fft window (map (get j) tile) (map (get j) tile')
                   = Ok (spectrum fft window (map (get j) tile))).
  { apply fft_slice_spectrum; [exact fft_length | |];
      rewrite !length_map; congruence. }
  assert (Hlen : length (spectrum fft window (map (get j) tile))
                 = snd (shape3 a)).
  { pose proof (fft_slice_spectrum fft fft_length window (map (get j) tile)
                  (map (get j) tile')) as H.
    unfold spectrum.
    destruct (select (map (get j) tile) (map (get j) tile)).
    - rewrite !length_map. exact Hn2.
    - rewrite length_scatter, length_map. exact Hn2. }
  destruct (set_slice_frame _ fd t i j _ Hfd Ht Hi Hlen)
    as (fd' & Hset & Hsh' & Hread & Hframe).
  exists fd'. unfold fft_step. rewrite Hdata, Hout. cbn [Py.bind].
  rewrite Hslice. cbn [Py.bind].
  split; [exact Hset|]. split; [exact Hsh'|]. split; [exact Hread|].
  intros [t' [i' j']] Hne. cbn [fst snd]. now apply Hframe.
Qed.

Lemma gains_fft_loops :
  exists fft_data,
    foldM (fun t =>
             foldM (fun i => foldM (fun j => fft_step fft a window t i j) pols)
                   (seq 0 (snd (fst (shape3 a)))))
          (seq 0 (fst (fst (shape3 a)))) (zeros (shape3 a)) = Ok fft_data /\
    has_shape (shape3 a) fft_data /\
    forall t i j data,
      slice a t i j = Ok data ->
      slice fft_data t i j = Ok (spectrum fft window data).
Proof.
  set (n0 := fst (fst (shape3 a))). set (n1 := snd (fst (shape3 a))).
  set (ks := list_prod (seq 0 n0) (list_prod (seq 0 n1) pols)).
  assert (Hflat :
            foldM (fun t =>
                     foldM (fun i => foldM (fun j => fft_step fft a window t i j)
                                           pols) (seq 0 n1))
                  (seq 0 n0) (zeros (shape3 a))
            = foldM (fun k : key =>
                       fft_step fft a window (fst k) (fst (snd k)) (snd (snd k)))
                    ks (zeros (shape3 a))).
  { unfold ks.
    rewrite (foldM_ext _
               (fun t => foldM (fun k : nat * pol =>
                                  fft_step fft a window t (fst k) (snd k))
                               (list_prod (seq 0 n1) pols))).
    - apply (foldM_nested
               (fun t (k : nat * pol) => fft_step fft a window t (fst k) (snd k))).
    - intros t fd.
      apply (foldM_nested (fun i j => fft_step fft a window t i j)). }
  assert (Hdom : Forall dom ks).
  { apply Forall_forall. intros [t [i j]] Hin. unfold ks in Hin.
    apply in_prod_iff in Hin. destruct Hin as (Ht & Hin).
    apply in_prod_iff in Hin. destruct Hin as (Hi & _).
    apply in_seq in Ht. apply in_seq in Hi.
    unfold dom. cbn [fst snd]. fold n0 n1. lia. }
  destruct (foldM_frame key GainArray (result (list complex)) read
              (fun k : key =>
                 fft_step fft a window (fst k) (fst (snd k)) (snd (snd k)))
              val (has_shape (shape3 a)) dom key_eq_dec fft_step_frame
              ks (zeros (shape3 a)) Hdom (zeros_has_shape _))
    as (fft_data & Hfold & Hsh & Hin & _).
  exists fft_data. rewrite Hflat.
  split; [exact Hfold|]. split; [exact Hsh|].
  intros t i j data Hdata.
  destruct (slice_in_range _ a t i j data a_shape Hdata) as (Ht & Hi & _).
  assert (Hk : In (t, (i, j)) ks).
  { unfold ks. apply in_prod; [apply in_seq; fold n0; lia|].
    apply in_prod; [apply in_seq; fold n1; lia|].
    destruct j; cbn; auto. }
  specialize (Hin (t, (i, j)) Hk). unfold read, val in Hin.
  cbn [fst snd] in Hin. rewrite Hdata in Hin. exact Hin.
Qed.

End GainsFftLoops.

(** What [np.where] lists. *)
Lemma where_from_spec {A} (cond : A -> bool) (l : list A) (s k : nat) :
  In k (where_from s cond l) <->
  (s <= k)%nat /\ exists x, nth_error l (k - s) = Some x /\ cond x = true.
Proof.
  revert s. induction l as [|y l IH]; intros s; cbn [where_from].
  - split; [intros [] | intros (_ & x & H & _)].
    destruct (k - s)%nat; discriminate.
  - assert (Hrest : In k (where_from (S s) cond l) <->
                    (s < k)%nat /\
                    exists x, nth_error (y :: l) (k - s) = Some x /\ cond x = true).
    { rewrite IH. split; intros (Hk & x & Hx & Hc); (split; [lia|]);
        exists x; split; auto.
      - replace (k - s)%nat with (S (k - S s)) by lia. exact Hx.
      - replace (k - s)%nat with (S (k - S s)) in Hx by lia. exact Hx. }
    destruct (cond y) eqn:Ey; cbn [In]; rewrite Hrest; split.
    + intros [<-|(Hk & H)]; [|split; [lia | exact H]].
      split; [lia|]. exists y. rewrite Nat.sub_diag. auto.
    + intros (Hk & x & Hx & Hc).
      destruct (Nat.eq_dec s k) as [->|Hne]; [now left|].
      right. split; [lia|]. eauto.
    + intros (Hk & H). split; [lia | exact H].
    + intros (Hk & x & Hx & Hc).
      destruct (Nat.eq_dec s k) as [->|Hne].
      * rewrite Nat.sub_diag in Hx. cbn in Hx. congruence.
      * split; [lia|]. eauto.
Qed.

Lemma where_from_sorted {A} (cond : A -> bool) (l : list A) (s : nat) :
  StronglySorted lt (where_from s cond l).
Proof.
  revert s. induction l as [|y l IH]; intros s; cbn [where_from];
    [constructor|].
  destruct (cond y); [|apply IH].
  constructor; [apply IH|].
  apply Forall_forall. intros k Hk. apply where_from_spec in Hk. lia.
Qed.

Lemma where_from_lengths {A} (cond : A -> bool) (l : list A) (s : nat) :
  (length (where_from s cond l) +
   length (where_from s (fun x => negb (cond x)) l) = length l)%nat.
Proof.
  revert s. induction l as [|y l IH]; intros s; cbn [where_from];
    [reflexivity|].
  destruct (cond y); cbn [negb length]; rewrite <- (IH (S s)); lia.
Qed.

(** [np.fft.fftshift] by positions: entry [k] of the array stands at
    position [(k + n // 2) mod n] of the shifted one, so the first entry
    (zero delay) stands at [n // 2]. *)
Lemma nth_error_fftshift {A} (d : list A) (k : nat) :
  (k < length d)%nat ->
  nth_error (fftshift d) ((k + length d / 2) mod length d) = nth_error d k.
Proof.
  intros Hk. unfold fftshift. cbv zeta.
  set (n := length d) in *.
  assert (Hhalf : (n / 2 <= n)%nat) by (apply Nat.Div0.div_le_upper_bound; lia).
  assert (Hskip : length (skipn (n - n / 2) d) = (n / 2)%nat)
    by (rewrite length_skipn; fold n; lia).
  destruct (Nat.lt_ge_cases k (n - n / 2)) as [Hlt|Hge].
  - rewrite Nat.mod_small by lia.
    rewrite nth_error_app2 by lia. rewrite Hskip.
    replace (k + n / 2 - n / 2)%nat with k by lia.
    rewrite nth_error_firstn.
    destruct (Nat.ltb_spec k (n - n / 2)); [reflexivity | lia].
  - assert (Hmod : ((k + n / 2) mod n = k - (n - n / 2))%nat).
    { symmetry. apply Nat.mod_unique with (q := 1%nat); lia. }
    rewrite Hmod. rewrite nth_error_app1 by lia.
    rewrite nth_error_skipn. f_equal. lia.
Qed.

(** The entries of [l] at the positions that [_filter_nans] lists as not
    NaN are the entries that [select] keeps, in order. *)
Lemma filter_nans_select {A} (data : list complex) (l : list A) :
  length l = length data ->
  Forall2 (fun c y => nth_error l c = Some y)
          (fst (_filter_nans data)) (select data l).
Proof.
  intros Hl. pose proof (take_where_from data l [] 0 eq_refl Hl) as Htake.
  cbn [app] in Htake. unfold take in Htake.
  apply mapM_Forall2 in Htake. unfold _filter_nans. cbn [fst].
  eapply Forall2_impl; [|exact Htake].
  cbn. intros c y H. destruct (nth_error l c); [now injection H as -> | discriminate].
Qed.

(** A sample times a window sample, part by part. *)
Lemma window_mul_parts (x : complex) (w : xnum) :
  window_mul x w =
  match re x, im x, w with
  | Some xr, Some xi, Some q => Cx (Some (xr * q)%Qc) (Some (xi * q)%Qc)
  | _, _, _ => cnan
  end.
Proof.
  destruct x as [[xr|] [xi|]], w as [q|]; try reflexivity.
  unfold window_mul, cmul, xof; cbn. f_equal; f_equal; ring.
Qed.

(** C6, as the specification states it, fails.  A slice of three
    channels with the number 1 at the first channel and NaN at the other
    two: the code multiplies the number by the first sample of the
    three-sample window, 6.0000000000001025e-05, and stores that; a
    window made for the subsequence of one number is [1.], and the
    stored value would be 1. *)
Lemma gains_fft_window_of_all_channels :
  slice Sample.gains_first_channel 0 0 pXX = Ok [c1; cnan; cnan] /\
  fmap (fun fft_data => slice fft_data 0 0 pXX)
       (gains_fft blackmanharris3 dft2 Sample.gains_first_channel 3)
  = Ok (Ok [Cx (xof bh_edge) (xof 0); np_nan; np_nan]) /\
  spectrum_as_specified blackmanharris3 dft2 [c1; cnan; cnan]
  = [c1; np_nan; np_nan] /\
  Cx (xof bh_edge) (xof 0) <> c1.
Proof.
  split; [reflexivity|]. split; [|split].
  - vm_compute. qc_eq.
  - vm_compute. qc_eq.
  - intros H. injection H as H. discriminate H.
Qed.

(** C6, amended.  [gains_fft] completes on every rectangular gain array
    for which the window has a sample per channel, and its output has
    the shape of the input.  Every (timeblock, antenna, polarization)
    slice of the output depends on the same slice of the input only.
    With [n] channels that are not NaN, all of them listed by
    [_filter_nans], [prods] are the [n] samples at these channels, each multiplied, part by part, by the sample of the
    full-length window at its own channel; entry [k] of the transform of
    [prods] is stored at the channel that stands at position
    [(k + n // 2) mod n] among the channels that are not NaN, so that the
    first entry stands in the middle; the NaN channels hold NaN; a slice
    that is NaN at every channel, for which [np.fft.fft] raises
    ValueError, is NaN throughout and nothing is raised. *)
Theorem gains_fft_per_slice
  (blackmanharris : nat -> list xnum) (fft : list complex -> list complex)
  (a : GainArray) (nfreq : nat) :
  (forall x, length (fft x) = length x) ->
  has_shape (shape3 a) a ->
  length (blackmanharris nfreq) = snd (shape3 a) ->
  exists fft_data,
    gains_fft blackmanharris fft a nfreq = Ok fft_data /\
    has_shape (shape3 a) fft_data /\
    forall t i j data,
      slice a t i j = Ok data ->
      exists out prods,
        slice fft_data t i j = Ok out /\
        length out = length data /\
        (forall c x, nth_error data c = Some x -> isnan x = true ->
                     nth_error out c = Some np_nan) /\
        (forall c x, nth_error data c = Some x -> isnan x = false ->
                     In c (fst (_filter_nans data))) /\
        length prods = length (fst (_filter_nans data)) /\
        (forall k c x w,
           nth_error (fst (_filter_nans data)) k = Some c ->
           nth_error data c = Some x ->
           nth_error (blackmanharris nfreq) c = Some w ->
           nth_error prods k =
           Some match re x, im x, w with
                | Some xr, Some xi, Some q =>
                    Cx (Some (xr * q)%Qc) (Some (xi * q)%Qc)
                | _, _, _ => cnan
                end) /\
        (forall k c,
           (k < length prods)%nat ->
           nth_error (fst (_filter_nans data))
                     ((k + length prods / 2) mod length prods) = Some c ->
           nth_error out c = nth_error (fft prods) k) /\
        (prods = [] -> out = map (fun _ => np_nan) data).
Proof.
  intros Hfft Hshape Hwin.
  destruct (gains_fft_loops fft Hfft a (blackmanharris nfreq) Hshape Hwin)
    as (fft_data & Hrun & Hsh & Hslices).
  exists fft_data. split; [exact Hrun|]. split; [exact Hsh|].
  intros t i j data Hdata.
  set (window := blackmanharris nfreq) in *.
  destruct (slice_in_range _ a t i j data Hshape Hdata) as (_ & _ & Hlen).
  assert (Hw : length window = length data) by congruence.
  pose proof (length_select_both data data window eq_refl Hw) as Hsel.
  pose proof (filter_nans_select data data eq_refl) as Fdata.
  pose proof (filter_nans_select data window Hw) as Fwin.
  set (prods := map2 window_mul (select data data) (select data window)).
  assert (Hprods : length prods = length (fst (_filter_nans data))).
  { unfold prods. rewrite length_map2 by exact Hsel.
    symmetry. exact (Forall2_length Fdata). }
  exists (spectrum fft window data), prods.
  split; [now apply Hslices|].
  assert (Hmul : forall k c x w,
             nth_error (fst (_filter_nans data)) k = Some c ->
             nth_error data c = Some x -> nth_error window c = Some w ->
             nth_error prods k = Some (window_mul x w)).
  { intros k c x w Hk Hx Hwc.
    destruct (Forall2_nth_error_l _ _ _ _ _ Fdata Hk) as (x' & Hx' & Ex).
    destruct (Forall2_nth_error_l _ _ _ _ _ Fwin Hk) as (w' & Hw' & Ew).
    cbn in Ex, Ew.
    assert (x' = x) by congruence. assert (w' = w) by congruence. subst x' w'.
    unfold prods. now apply nth_error_map2. }
  assert (Hkept : forall c x, nth_error data c = Some x -> isnan x = false ->
                              In c (fst (_filter_nans data))).
  { intros c x Hc Hx. unfold _filter_nans. cbn [fst].
    apply where_from_spec. split; [lia|]. exists x.
    rewrite Nat.sub_0_r, Hx. auto. }
  unfold spectrum. fold prods.
  destruct (select data data) as [|x0 nums] eqn:Enums.
  - assert (Hnil : prods = []) by reflexivity.
    split; [now rewrite length_map|].
    split; [intros c y Hc _; eapply nth_error_map_const; eauto|].
    split; [exact Hkept|].
    split; [exact Hprods|].
    split; [intros k c x w Hk Hx Hwc;
            rewrite (Hmul k c x w Hk Hx Hwc), window_mul_parts; reflexivity|].
    split; [|reflexivity].
    intros k c Hk. rewrite Hnil in Hk. cbn in Hk. lia.
  - assert (Hne : prods <> []).
    { intros E. apply (f_equal (@length complex)) in E.
      unfold prods in E. rewrite length_map2 in E by exact Hsel.
      discriminate E. }
    split; [apply length_scatter|].
    split; [intros c y Hc Hy; eapply nth_error_scatter_nan; eauto|].
    split; [exact Hkept|].
    split; [exact Hprods|].
    split; [intros k c x w Hk Hx Hwc;
            rewrite (Hmul k c x w Hk Hx Hwc), window_mul_parts; reflexivity|].
    split; [|intros E; contradiction].
    intros k c Hk Hc.
    set (out := scatter data (fftshift (fft prods))) in *.
    assert (Hout : length out = length data) by apply length_scatter.
    pose proof (filter_nans_select data out Hout) as Fout.
    destruct (Forall2_nth_error_l _ _ _ _ _ Fout Hc) as (y & Hy & Ey).
    cbn in Ey. rewrite Ey, <- Hy.
    unfold out. rewrite select_scatter.
    + rewrite <- (nth_error_fftshift (fft prods) k) by (rewrite Hfft; exact Hk).
      now rewrite Hfft.
    + rewrite length_fftshift, Hfft.
      unfold prods. rewrite length_map2 by exact Hsel. now rewrite Enums.
Qed.

Lemma gains_fft_per_slice_witness :
  exists fft_data out,
    gains_fft blackmanharris3 dft2 Sample.gains_edge_channels 3 = Ok fft_data /\
    slice Sample.gains_edge_channels 0 0 pXX = Ok [cof 2 0; cnan; c1] /\
    slice fft_data 0 0 pXX = Ok out /\
    nth_error out 0 = Some (Cx (xof bh_edge) (xof 0)) /\
    nth_error out 1 = Some np_nan /\
    nth_error out 2 = Some (Cx (xof (Q2Qc 3 * bh_edge)%Qc) (xof 0)).
Proof.
  assert (Hfft : forall x, length (dft2 x) = length x).
  { intros [|x0 [|x1 [|x2 x]]]; reflexivity. }
  assert (Hsh : has_shape (shape3 Sample.gains_edge_channels)
                          Sample.gains_edge_channels).
  { split; [reflexivity|]. repeat constructor. }
  destruct (gains_fft_per_slice blackmanharris3 dft2 Sample.gains_edge_channels 3
              Hfft Hsh eq_refl) as (fft_data & Hrun & _ & Hslices).
  destruct (Hslices 0%nat 0%nat pXX [cof 2 0; cnan; c1] eq_refl)
    as (out & prods & Hout & _ & Hnan & _ & Hlen & Hmul & Hshift & _).
  exists fft_data, out. split; [exact Hrun|]. split; [reflexivity|].
  split; [exact Hout|].
  pose proof (Hmul 0%nat 0%nat (cof 2 0) (xof bh_edge) eq_refl eq_refl eq_refl)
    as H0.
  pose proof (Hmul 1%nat 2%nat c1 (xof bh_edge) eq_refl eq_refl eq_refl) as H1.
  destruct prods as [|p0 [|p1 [|p2 prods]]]; try discriminate Hlen.
  cbn in H0, H1. injection H0 as ->. injection H1 as ->.
  split; [|split].
  - rewrite (Hshift 1%nat 0%nat ltac:(cbn; lia) eq_refl).
    vm_compute. qc_eq.
  - exact (Hnan 1%nat cnan eq_refl eq_refl).
  - rewrite (Hshift 0%nat 2%nat ltac:(cbn; lia) eq_refl).
    vm_compute. qc_eq.
Defined.

(** * Further properties of the store and of the engine *)


(** ** NaN positions *)

(** X3.  [_filter_nans] splits the channel positions in two: the first
    array lists, in increasing order, exactly the positions whose entry
    is not NaN, the second exactly those whose entry is NaN; every
    position is in one of the two and in one only. *)
Theorem filter_nans_partition (data : list complex) :
  let (nonans_inds, nans_inds) := _filter_nans data in
  (forall k, In k nonans_inds <->
             exists x, nth_error data k = Some x /\ isnan x = false) /\
  (forall k, In k nans_inds <->
             exists x, nth_error data k = Some x /\ isnan x = true) /\
  (forall k, ~ (In k nonans_inds /\ In k nans_inds)) /\
  StronglySorted lt nonans_inds /\ StronglySorted lt nans_inds /\
  (length nonans_inds + length nans_inds = length data)%nat.
Proof.
  unfold _filter_nans.
  assert (H1 : forall k, In k (where_from 0 (fun c => negb (isnan c)) data) <->
                         exists x, nth_error data k = Some x /\ isnan x = false).
  { intros k. rewrite where_from_spec, Nat.sub_0_r.
    split.
    - intros (_ & x & Hx & Hc). exists x. split; [exact Hx|].
      now destruct (isnan x).
    - intros (x & Hx & Hc). split; [lia|]. exists x. now rewrite Hc. }
  assert (H2 : forall k, In k (where_from 0 isnan data) <->
                         exists x, nth_error data k = Some x /\ isnan x = true).
  { intros k. rewrite where_from_spec, Nat.sub_0_r.
    split; [intros (_ & H); exact H | intros H; split; [lia | exact H]]. }
  split; [exact H1|]. split; [exact H2|]. split; [|split; [|split]].
  - intros k (Ha & Hb). apply H1 in Ha. apply H2 in Hb.
    destruct Ha as (x & Hx & Hc), Hb as (x' & Hx' & Hc'). congruence.
  - apply where_from_sorted.
  - apply where_from_sorted.
  - rewrite Nat.add_comm. apply (where_from_lengths isnan data 0).
Qed.

(** ** Indexing by antenna number *)

Lemma getitem_in_range {A} (l : list A) (i : Z) (d : A) :
  (- Z.of_nat (length l) <= i < Z.of_nat (length l))%Z ->
  getitem l i = Ok (nth (Z.to_nat (i mod Z.of_nat (length l))) l d).
Proof.
  intros Hi. unfold getitem. cbv zeta.
  set (n := Z.of_nat (length l)) in *.
  assert (Hj : (if (i <? 0)%Z then (i + n)%Z else i) = (i mod n)%Z).
  { destruct (i <? 0)%Z eqn:E.
    - apply Z.ltb_lt in E. apply Z.mod_unique with (q := (-1)%Z); lia.
    - apply Z.ltb_ge in E. symmetry. apply Z.mod_small. lia. }
  rewrite Hj.
  assert (Hm : (0 <= i mod n < n)%Z) by (apply Z.mod_pos_bound; lia).
  replace (i mod n <? 0)%Z with false by (symmetry; apply Z.ltb_ge; lia).
  replace (n <=? i mod n)%Z with false by (symmetry; apply Z.leb_gt; lia).
  cbn [orb].
  destruct (nth_error l (Z.to_nat (i mod n))) as [x|] eqn:E.
  - f_equal. symmetry. now apply nth_error_nth.
  - apply nth_error_None in E. lia.
Qed.

Lemma getitem_outside {A} (l : list A) (i : Z) :
  (i < - Z.of_nat (length l) \/ Z.of_nat (length l) <= i)%Z ->
  getitem l i = Raise IndexError.
Proof.
  intros Hi. unfold getitem. cbv zeta.
  destruct (Z.ltb_spec i 0) as [E|E].
  - replace (i + Z.of_nat (length l) <? 0)%Z with true
      by (symmetry; apply Z.ltb_lt; lia).
    reflexivity.
  - replace (i <? 0)%Z with false by (symmetry; apply Z.ltb_ge; lia).
    replace (Z.of_nat (length l) <=? i)%Z with true
      by (symmetry; apply Z.leb_le; lia).
    reflexivity.
Qed.

(** X4.  [gains_for_antnum] reads and does not write.  On an array whose
    timeblocks have [nant] antennas, an antenna number in [-nant, nant)
    gives, for each timeblock, the gains at that index, a negative number
    counting from the last antenna; any other number raises IndexError
    (unless the array has no timeblock). *)
Theorem gains_for_antnum_index
  (self : obj) (g : loc) (h : heap) (a : GainArray) (nant : nat) (antnum : Z) :
  getattr self "gain_array" = Ok (VArray g) ->
  nth_error h g = Some a ->
  Forall (fun tb : Timeblock => length tb = nant) a ->
  ((- Z.of_nat nant <= antnum < Z.of_nat nant)%Z ->
   gains_for_antnum self antnum h =
   (Ok (map (fun tb : Timeblock =>
               nth (Z.to_nat (antnum mod Z.of_nat nant)) tb []) a), h)) /\
  (a <> [] ->
   (antnum < - Z.of_nat nant \/ Z.of_nat nant <= antnum)%Z ->
   gains_for_antnum self antnum h = (Raise IndexError, h)).
Proof.
  intros Hattr Hderef Hall.
  rewrite gains_for_antnum_run. unfold bindM, attr_array, lift, deref.
  rewrite Hattr. cbn [Py.bind as_array]. rewrite Hderef. cbn [fst Py.bind].
  unfold gains_ind_for. split.
  - intros Hi. f_equal. clear Hderef.
    induction Hall as [|tb a' Htb _ IH]; [reflexivity|].
    cbn [mapM map]. rewrite (getitem_in_range tb antnum []) by (rewrite Htb; lia).
    cbn [Py.bind]. rewrite IH, Htb. reflexivity.
  - intros Hne Hi. f_equal.
    destruct Hall as [|tb a' Htb _]; [congruence|].
    cbn [mapM]. rewrite getitem_outside by (rewrite Htb; lia).
    reflexivity.
Qed.

Lemma gains_for_antnum_index_witness :
  Forall (fun tb : Timeblock => length tb = 3%nat) Sample.gains_identity_ref /\
  gains_for_antnum Sample.self1 (-1) [Sample.gains_identity_ref] =
    (Ok [[Sample.m_singular; Sample.m_num]], [Sample.gains_identity_ref]) /\
  gains_for_antnum Sample.self1 3 [Sample.gains_identity_ref] =
    (Raise IndexError, [Sample.gains_identity_ref]).
Proof.
  assert (H : Forall (fun tb : Timeblock => length tb = 3%nat)
                     Sample.gains_identity_ref) by (repeat constructor).
  split; [exact H|]. split.
  - apply (proj1 (gains_for_antnum_index Sample.self1 0%nat
                    [Sample.gains_identity_ref] Sample.gains_identity_ref
                    3%nat (-1)%Z eq_refl eq_refl H)). lia.
  - apply (proj2 (gains_for_antnum_index Sample.self1 0%nat
                    [Sample.gains_identity_ref] Sample.gains_identity_ref
                    3%nat 3%Z eq_refl eq_refl H)); [discriminate | lia].
Defined.

(** X5.  A reference antenna outside the antenna axis: on an array with
    at least one timeblock normalization raises IndexError, and every
    array of the heap is left as it was. *)
Theorem normalized_gains_reference_out_of_range
  (self : obj) (g : loc) (h : heap) (data : Timeblock) (rest : GainArray)
  (r : Z) :
  getattr self "gain_array" = Ok (VArray g) ->
  nth_error h g = Some (data :: rest) ->
  getattr self "ref_antenna" = Ok (VInt r) ->
  (r < - Z.of_nat (length data) \/ Z.of_nat (length data) <= r)%Z ->
  fst (normalized_gains self h) = Raise IndexError /\
  forall l, (l < length h)%nat ->
            nth_error (snd (normalized_gains self h)) l = nth_error h l.
Proof.
  intros Hattr Hderef Hr Hout.
  destruct (normalized_gains_run self g h (data :: rest) Hattr Hderef)
    as (cur & Hrun & _).
  assert (Hdata : _normalized_data self data = Raise IndexError).
  { unfold _normalized_data, _normalized_data_over. rewrite Hr. cbn [Py.bind as_int].
    unfold gains_ind_for. now rewrite getitem_outside. }
  rewrite Hrun. cbn [mapM fst snd]. rewrite Hdata. cbn [Py.bind].
  split; [reflexivity|]. intros l Hl. now rewrite nth_error_app1.
Qed.

Lemma normalized_gains_reference_out_of_range_witness :
  (Z.of_nat (length (hd [] Sample.gains_identity_ref)) <= 3)%Z /\
  fst (normalized_gains
         (setattr Sample.self1 "ref_antenna" (VInt 3))
         [Sample.gains_identity_ref]) = Raise IndexError.
Proof.
  split; [cbn; lia|].
  apply (normalized_gains_reference_out_of_range
           (setattr Sample.self1 "ref_antenna" (VInt 3)) 0%nat
           [Sample.gains_identity_ref]
           [[Sample.m_num; jnan]; [jidentity; jidentity];
            [Sample.m_singular; Sample.m_num]] [] 3%Z eq_refl eq_refl eq_refl).
  right. cbn. lia.
Defined.

(** ** A window shorter than the channel axis *)

Import Spectral.

Lemma take_cases {A} (l : list A) (inds : list nat) :
  (exists w, take l inds = Ok w /\ length w = length inds /\
             Forall (fun k => (k < length l)%nat) inds) \/
  (take l inds = Raise IndexError /\
   Exists (fun k => (length l <= k)%nat) inds).
Proof.
  unfold take. induction inds as [|k inds IH]; cbn [mapM].
  - left. exists []. auto.
  - destruct (nth_error l k) as [x|] eqn:Ek; cbn [Py.bind].
    + assert (Hk : (k < length l)%nat) by (apply nth_error_Some; congruence).
      destruct IH as [(w & -> & Hw & Hall) | (-> & Hex)]; cbn [Py.bind].
      * left. exists (x :: w). cbn [length]. auto.
      * right. auto.
    + right. split; [reflexivity|]. left. now apply nth_error_None.
Qed.

Lemma length_put {A} (out : list A) (inds : list nat) (vals : list A) :
  length (put out inds vals) = length out.
Proof.
  revert out vals. induction inds as [|k inds IH]; intros out [|v vals];
    cbn [put]; try reflexivity.
  now rewrite IH, length_update.
Qed.

Lemma length_fill_inds {A} (out : list A) (inds : list nat) (v : A) :
  length (fill_inds out inds v) = length out.
Proof.
  unfold fill_inds. revert out. induction inds as [|k inds IH]; intros out;
    cbn [fold_left]; [reflexivity|].
  now rewrite IH, length_update.
Qed.

Section ShortWindow.

Variable fft : list complex -> list complex.
Hypothesis fft_length : forall x, length (fft x) = length x.

(** The [try] block on one slice lets exactly one exception through:
    the IndexError of [window[nonans_inds]], raised when a channel that
    holds a number has no window sample. *)
Lemma fft_slice_cases (window : list xnum) (data out : list complex) :
  (exists new, fft_slice fft window data out = Ok new /\
               length new = length out /\
               forall c x, nth_error data c = Some x -> isnan x = false ->
                           (c < length window)%nat) \/
  (fft_slice fft window data out = Raise IndexError).
Proof.
  unfold fft_slice, _filter_nans.
  pose proof (take_where_from data data [] 0 eq_refl eq_refl) as Hd.
  cbn [app] in Hd. rewrite Hd. cbn [Py.bind].
  destruct (take_cases window (where_from 0 (fun c => negb (isnan c)) data))
    as [(w & -> & Hw & Hall) | (-> & _)]; cbn [Py.bind]; [|now right].
  left.
  assert (Hcover : forall c x, nth_error data c = Some x -> isnan x = false ->
                               (c < length window)%nat).
  { intros c x Hc Hx. rewrite Forall_forall in Hall. apply Hall.
    apply where_from_spec. split; [lia|]. exists x.
    rewrite Nat.sub_0_r, Hx. auto. }
  rewrite (length_where_from_select data data 0 eq_refl) in Hw.
  destruct (map2 window_mul (select data data) w) as [|y ys] eqn:Em.
  - cbn. eexists. split; [reflexivity|]. split; [apply length_map | exact Hcover].
  - unfold np_fft. cbn [Py.bind]. unfold setitem_inds.
    rewrite (length_where_from_select data data 0 eq_refl).
    rewrite length_fftshift, fft_length, <- Em, length_map2 by (symmetry; exact Hw).
    rewrite Nat.eqb_refl. cbn [Py.bind].
    eexists. split; [reflexivity|]. split; [|exact Hcover].
    now rewrite length_fill_inds, length_put.
Qed.

Variable a : GainArray.
Variable window : list xnum.
Hypothesis a_shape : has_shape (shape3 a) a.

(** The window has a sample for every channel of slice (t, i, j) that
    holds a number. *)
Let covered (t i : nat) (j : pol) : Prop :=
  forall data c x, slice a t i j = Ok data -> nth_error data c = Some x ->
                   isnan x = false -> (c < length window)%nat.

Lemma fft_step_cases (t i : nat) (j : pol) (fd : GainArray) :
  (t < fst (fst (shape3 a)))%nat -> (i < snd (fst (shape3 a)))%nat ->
  has_shape (shape3 a) fd ->
  (exists fd', fft_step fft a window t i j fd = Ok fd' /\
               has_shape (shape3 a) fd' /\ covered t i j) \/
  fft_step fft a window t i j fd = Raise IndexError.
Proof.
  intros Ht Hi Hfd.
  destruct (has_shape_slice _ a t i j a_shape Ht Hi)
    as (tb & tile & _ & _ & _ & Hn2 & Hdata).
  destruct (has_shape_slice _ fd t i j Hfd Ht Hi)
    as (tb' & tile' & _ & _ & _ & Hn2' & Hout).
  unfold fft_step. rewrite Hdata, Hout. cbn [Py.bind].
  destruct (fft_slice_cases window (map (get j) tile) (map (get j) tile'))
    as [(new & -> & Hlen & Hcover) | ->]; cbn [Py.bind]; [|now right].
  left. rewrite length_map, Hn2' in Hlen.
  destruct (set_slice_frame _ fd t i j _ Hfd Ht Hi Hlen)
    as (fd' & Hset & Hsh' & _).
  exists fd'. split; [exact Hset|]. split; [exact Hsh'|].
  intros data c x Hs. rewrite Hdata in Hs. injection Hs as <-.
  apply Hcover.
Qed.

End ShortWindow.

(** A loop whose every turn keeps [P] and either succeeds, showing [Q]
    of its key, or raises [e]: the loop succeeds with [Q] of every key,
    or raises [e]. *)
Lemma foldM_cases {K S} (P : S -> Prop) (Q : K -> Prop) (e : exn)
      (step : K -> S -> result S) (ks : list K) :
  (forall k s, In k ks -> P s ->
               (exists s', step k s = Ok s' /\ P s' /\ Q k) \/
               step k s = Raise e) ->
  forall s, P s ->
    (exists s', foldM step ks s = Ok s' /\ P s' /\ Forall Q ks) \/
    foldM step ks s = Raise e.
Proof.
  induction ks as [|k ks IH]; intros Hstep s Hs; cbn [foldM].
  - left. exists s. auto.
  - destruct (Hstep k s (or_introl eq_refl) Hs) as [(s1 & -> & H1 & Hq) | ->];
      cbn [Py.bind]; [|now right].
    destruct (IH (fun k' s' Hin => Hstep k' s' (or_intror Hin)) s1 H1)
      as [(s' & -> & H' & Hall) | ->]; [|now right].
    left. exists s'. auto.
Qed.

(** X7.  [gains_fft] catches ValueError only.  When the window, which
    has [len(self.frequency_array)] samples, is shorter than the channel
    axis and some slice holds a number at a channel that has no window
    sample, [window[nonans_inds]] raises an IndexError that leaves
    [gains_fft]. *)
Theorem gains_fft_short_window_index_error
  (blackmanharris : nat -> list xnum) (fft : list complex -> list complex)
  (a : GainArray) (nfreq : nat) (t i : nat) (j : pol)
  (data : list complex) (c : nat) (x : complex) :
  (forall x, length (fft x) = length x) ->
  has_shape (shape3 a) a ->
  slice a t i j = Ok data ->
  nth_error data c = Some x -> isnan x = false ->
  (length (blackmanharris nfreq) <= c)%nat ->
  gains_fft blackmanharris fft a nfreq = Raise IndexError.
Proof.
  intros Hfft Hshape Hslice Hc Hx Hshort.
  destruct (slice_in_range _ a t i j data Hshape Hslice) as (Ht & Hi & _).
  unfold gains_fft. cbv zeta.
  set (window := blackmanharris nfreq) in *.
  set (covered := fun t i j =>
         forall data c x, slice a t i j = Ok data -> nth_error data c = Some x ->
                          isnan x = false -> (c < length window)%nat).
  destruct (foldM_cases (has_shape (shape3 a))
              (fun t => forall i j, (i < snd (fst (shape3 a)))%nat ->
                                    covered t i j)
              IndexError
              (fun t => foldM (fun i => foldM (fun j => fft_step fft a window t i j)
                                              pols)
                              (seq 0 (snd (fst (shape3 a)))))
              (seq 0 (fst (fst (shape3 a)))))
    with (s := zeros (shape3 a)) as [(fd & _ & _ & Hall) | Hraise].
  - intros t0 s Ht0 Hs. apply in_seq in Ht0.
    destruct (foldM_cases (has_shape (shape3 a))
                (fun i => forall j, covered t0 i j) IndexError
                (fun i => foldM (fun j => fft_step fft a window t0 i j) pols)
                (seq 0 (snd (fst (shape3 a)))))
      with (s := s) as [(fd & Hrun & Hfd & Hall) | Hraise].
    + intros i0 s0 Hi0 Hs0. apply in_seq in Hi0.
      destruct (foldM_cases (has_shape (shape3 a)) (fun j => covered t0 i0 j)
                  IndexError (fun j => fft_step fft a window t0 i0 j) pols)
        with (s := s0) as [(fd & Hrun & Hfd & Hall) | Hraise].
      * intros j0 s1 _ Hs1.
        apply (fft_step_cases fft Hfft a window Hshape t0 i0 j0 s1);
          [lia | lia | exact Hs1].
      * exact Hs0.
      * left. exists fd. split; [exact Hrun|]. split; [exact Hfd|].
        intros j0. rewrite Forall_forall in Hall. apply Hall.
        destruct j0; cbn; auto.
      * now right.
    + exact Hs.
    + left. exists fd. split; [exact Hrun|]. split; [exact Hfd|].
      intros i0 j0 Hi0. rewrite Forall_forall in Hall.
      apply (Hall i0). apply in_seq. lia.
    + now right.
  - apply zeros_has_shape.
  - exfalso. rewrite Forall_forall in Hall.
    assert (Hin : In t (seq 0 (fst (fst (shape3 a))))) by (apply in_seq; lia).
    pose proof (Hall t Hin i j Hi data c x Hslice Hc Hx). lia.
  - exact Hraise.
Qed.

Lemma gains_fft_short_window_index_error_witness :
  gains_fft blackmanharris3 dft2 Sample.gains_two_channels 0 = Raise IndexError.
Proof.
  apply (gains_fft_short_window_index_error blackmanharris3 dft2
           Sample.gains_two_channels 0 0%nat 0%nat pXX
           [cof 2 0; cnan] 0%nat (cof 2 0)).
  - intros [|x0 [|x1 [|x2 x]]]; reflexivity.
  - split; [reflexivity|]. repeat constructor.
  - reflexivity.
  - reflexivity.
  - reflexivity.
  - cbn. lia.
Defined.

(** ** Outlier positions *)

Import Stat CalMetrics.

Lemma ltb_nan_l (v a : float) :
  PrimFloat.is_nan v = true -> (v <? a)%float = false.
Proof.
  intros H. apply is_nan_spec in H. rewrite ltb_spec, H. reflexivity.
Qed.

Lemma ltb_nan_r (v a : float) :
  PrimFloat.is_nan v = true -> (a <? v)%float = false.
Proof.
  intros H. apply is_nan_spec in H. rewrite ltb_spec, H.
  destruct (Prim2SF a) as [[|]|[|]| |[|] ? ?]; reflexivity.
Qed.

Lemma where_true_spec (cond : list bool) (s i : Z) :
  In i (where_true s cond) <->
  exists k, i = (s + Z.of_nat k)%Z /\ nth_error cond k = Some true.
Proof.
  revert s. induction cond as [|b cond IH]; intros s; cbn [where_true].
  - split; [intros [] | intros (k & _ & Hk)]. destruct k; discriminate.
  - assert (Hrest : In i (where_true (s + 1) cond) <->
                    exists k, i = (s + Z.of_nat (S k))%Z /\
                              nth_error (b :: cond) (S k) = Some true).
    { rewrite IH. split; intros (k & -> & Hk); exists k; split; auto; lia. }
    destruct b; cbn [In]; rewrite Hrest.
    + split.
      * intros [<- | (k & -> & Hk)]; [exists 0%nat | exists (S k)];
          split; auto; lia.
      * intros ([|k] & -> & Hk); [left; lia | right; exists k; auto].
    + split.
      * intros (k & -> & Hk). exists (S k). auto.
      * intros ([|k] & -> & Hk); [discriminate | exists k; auto].
Qed.

Lemma outliers_spec (ant_threshold : float) (z : list float) (i : Z) :
  In i (outliers ant_threshold z) <->
  exists k v, i = Z.of_nat k /\ nth_error z k = Some v /\
              ((v <? -1 * ant_threshold) || (ant_threshold <? v))%float = true.
Proof.
  unfold outliers, where_. rewrite where_true_spec. split.
  - intros (k & -> & Hk).
    destruct (nth_error_map_inv _ _ _ _ Hk) as (v & Hv & Hc).
    exists k, v. auto.
  - intros (k & v & -> & Hv & Hc). exists k. split; [reflexivity|].
    rewrite nth_error_map, Hv. cbn. now rewrite Hc.
Qed.

(** X11.  The positions that [np.where] selects by modified z-score
    (lines 180-181 and 190-191 of [run_metrics]) are positions of the
    scored series, and the score at each of them is a
    number beyond the threshold, below its negative or above it: an
    antenna whose score is NaN is never listed, and every position whose
    score is beyond the threshold is. *)
Theorem outliers_positions (ant_threshold : float) (z : list float) (i : Z) :
  In i (outliers ant_threshold z) <->
  exists k v,
    i = Z.of_nat k /\ nth_error z k = Some v /\
    PrimFloat.is_nan v = false /\
    ((v <? -1 * ant_threshold)%float = true \/
     (ant_threshold <? v)%float = true).
Proof.
  rewrite outliers_spec. split.
  - intros (k & v & -> & Hv & Hc). exists k, v.
    split; [reflexivity|]. split; [exact Hv|].
    apply orb_true_iff in Hc. split; [|exact Hc].
    destruct (PrimFloat.is_nan v) eqn:En; [|reflexivity].
    rewrite (ltb_nan_l v _ En), (ltb_nan_r v _ En) in Hc.
    destruct Hc; discriminate.
  - intros (k & v & -> & Hv & _ & Hc). exists k, v.
    split; [reflexivity|]. split; [exact Hv|]. now apply orb_true_iff.
Qed.

(** ** Where the skewness is NaN *)

Lemma is_nan_fmax (a b : float) :
  PrimFloat.is_nan (fmax a b) = PrimFloat.is_nan a && PrimFloat.is_nan b.
Proof.
  unfold fmax.
  destruct (PrimFloat.is_nan a) eqn:Ea; [reflexivity|].
  destruct (PrimFloat.is_nan b) eqn:Eb; [exact Ea|].
  destruct (a <? b)%float; cbn; assumption.
Qed.

Lemma is_nan_fold_fmax (l : list float) (x : float) :
  PrimFloat.is_nan (fold_left fmax l x)
  = PrimFloat.is_nan x && forallb PrimFloat.is_nan l.
Proof.
  revert x. induction l as [|y l IH]; intros x; cbn [fold_left forallb].
  - now rewrite andb_true_r.
  - rewrite IH, is_nan_fmax. now rewrite andb_assoc.
Qed.

Lemma forallb_map_comp {A B} (f : B -> bool) (g : A -> B) (l : list A) :
  forallb f (map g l) = forallb (fun x => f (g x)) l.
Proof.
  induction l as [|x l IH]; cbn [map forallb]; [reflexivity|]. now rewrite IH.
Qed.

Lemma nanmax_nan_iff (xs : list float) (r : float) :
  nanmax xs = Ok r ->
  PrimFloat.is_nan r = forallb PrimFloat.is_nan xs.
Proof.
  destruct xs as [|x xs]; [discriminate|]. cbn [nanmax forallb].
  intros [= <-]. apply is_nan_fold_fmax.
Qed.

(** X12.  [skewness_across_uvcut] on variance arrays of the shape
    (Ntime, 4).  With no timeblock, [np.nanmax] has nothing to reduce and
    raises ValueError.  Otherwise it returns four values, one per
    polarization, and the value of a polarization is NaN exactly when
    the coefficient of every timeblock is NaN: one timeblock with a
    number is enough for a number. *)
Theorem skewness_across_uvcut_nan
  (self : engine) (uv_cut : float) :
  variances_shaped self uv_cut = true ->
  (Ntime self = 0%nat ->
   skewness_across_uvcut self uv_cut = Raise ValueError) /\
  (Ntime self <> 0%nat ->
   exists sk,
     skewness_across_uvcut self uv_cut = Ok sk /\ length sk = 4%nat /\
     forall p, (p < 4)%nat ->
       PrimFloat.is_nan (nth p sk nan)
       = forallb (fun t => PrimFloat.is_nan (skew_entry self uv_cut t p))
                 (seq 0 (Ntime self))).
Proof.
  intros Hsh. rewrite (skewness_across_uvcut_spec self uv_cut Hsh). split.
  - intros ->. reflexivity.
  - intros Hn.
    assert (Hok : forall p, exists r,
              nanmax (map (fun t => skew_entry self uv_cut t p)
                          (seq 0 (Ntime self))) = Ok r /\
              PrimFloat.is_nan r
              = forallb (fun t => PrimFloat.is_nan (skew_entry self uv_cut t p))
                        (seq 0 (Ntime self))).
    { intros p.
      destruct (nanmax (map (fun t => skew_entry self uv_cut t p)
                            (seq 0 (Ntime self)))) as [r|e] eqn:E.
      - exists r. split; [reflexivity|].
        rewrite (nanmax_nan_iff _ _ E). apply forallb_map_comp.
      - exfalso. destruct (Ntime self); [congruence|]. discriminate. }
    destruct (Hok 0%nat) as (r0 & E0 & H0).
    destruct (Hok 1%nat) as (r1 & E1 & H1).
    destruct (Hok 2%nat) as (r2 & E2 & H2).
    destruct (Hok 3%nat) as (r3 & E3 & H3).
    exists [r0; r1; r2; r3]. cbn [seq mapM]. rewrite E0, E1, E2, E3.
    split; [reflexivity|]. split; [reflexivity|].
    intros [|[|[|[|p]]]] Hp; cbn [nth]; try assumption. lia.
Qed.

Lemma skewness_across_uvcut_nan_witness :
  exists sk,
    skewness_across_uvcut SampleMetrics.eng 40 = Ok sk /\
    PrimFloat.is_nan (nth 0 sk nan) = false.
Proof.
  destruct (skewness_across_uvcut_nan SampleMetrics.eng 40 eq_refl)
    as (_ & H).
  destruct H as (sk & Hrun & _ & Hnan); [discriminate|].
  exists sk. split; [exact Hrun|].
  rewrite (Hnan 0%nat) by lia. reflexivity.
Defined.

(** X13.  A cut that no baseline is shorter than: the variance array has
    no pair, every mean, median and standard deviation is taken of
    nothing, and with at least one timeblock [skewness_across_uvcut]
    returns NaN for each of the four polarizations; nothing is raised. *)
Theorem skewness_across_uvcut_no_baselines
  (self : engine) (uv_cut : float) :
  baselines_less_than self uv_cut = [] ->
  Ntime self <> 0%nat ->
  skewness_across_uvcut self uv_cut = Ok [nan; nan; nan; nan].
Proof.
  intros Hbl Hn.
  assert (Hsh : variances_shaped self uv_cut = true).
  { unfold variances_shaped. rewrite Hbl. reflexivity. }
  rewrite (skewness_across_uvcut_spec self uv_cut Hsh).
  assert (Hentry : forall t p, skew_entry self uv_cut t p = nan).
  { intros t p. unfold skew_entry, pair_variances. rewrite Hbl.
    vm_compute. reflexivity. }
  assert (Hmax : forall p,
            nanmax (map (fun t => skew_entry self uv_cut t p)
                        (seq 0 (Ntime self))) = Ok nan).
  { intros p. destruct (Ntime self) as [|n]; [congruence|].
    cbn [seq map nanmax]. rewrite Hentry. f_equal.
    generalize (seq 1 n). intros l. induction l as [|t l IH]; cbn [map fold_left];
      [reflexivity|].
    rewrite Hentry. exact IH. }
  cbn [seq mapM]. rewrite !Hmax. reflexivity.
Qed.

Lemma skewness_across_uvcut_no_baselines_witness :
  skewness_across_uvcut SampleMetrics.eng 200 = Ok [nan; nan; nan; nan].
Proof.
  apply (skewness_across_uvcut_no_baselines SampleMetrics.eng 200).
  - reflexivity.
  - discriminate.
Defined.

(** ** The field names of a table header *)

Import HduFields.

Lemma hdr_get_raise (hdr : header) (key : string) (e : exn) :
  hdr_get hdr key = Raise e -> e = KeyError key.
Proof.
  induction hdr as [|[k v] hdr IH]; cbn [hdr_get].
  - now intros [= <-].
  - destruct (String.eqb k key); [discriminate | exact IH].
Qed.

Lemma hdu_fields_loop_complete (hdr : header) (fds : list nat)
      (fields : list card) :
  (forall fd, In fd fds -> exists v, hdr_get hdr (ttype fd) = Ok v) ->
  exists vals,
    hdu_fields_loop hdr fds fields = (fields ++ vals, Ok tt) /\
    Forall2 (fun fd v => hdr_get hdr (ttype fd) = Ok v) fds vals.
Proof.
  revert fields. induction fds as [|fd fds IH]; intros fields Hall.
  - exists []. cbn. now rewrite app_nil_r.
  - destruct (Hall fd (or_introl eq_refl)) as (v & Hv).
    destruct (IH (fields ++ [v]) (fun fd' H => Hall fd' (or_intror H)))
      as (vals & Hrun & Hvals).
    exists (v :: vals). cbn [hdu_fields_loop]. rewrite Hv, Hrun, <- app_assoc.
    split; [reflexivity | now constructor].
Qed.

Lemma hdu_fields_loop_missing (hdr : header) (fds : list nat)
      (fields : list card) (fd : nat) (e : exn) :
  In fd fds -> hdr_get hdr (ttype fd) = Raise e ->
  exists fields' key, hdu_fields_loop hdr fds fields = (fields', Raise (KeyError key)).
Proof.
  revert fields. induction fds as [|fd0 fds IH]; intros fields Hin Hraise;
    [destruct Hin|].
  cbn [hdu_fields_loop].
  destruct (hdr_get hdr (ttype fd0)) as [v|e0] eqn:E0.
  - destruct Hin as [->|Hin]; [congruence|]. now apply IH.
  - apply hdr_get_raise in E0. subst e0. eauto.
Qed.

(** X14.  [hdu_fields] on a header that has TFIELDS = n and every
    keyword TTYPE1 .. TTYPEn: it returns n values, the k-th being the
    value of TTYPEk, in this order. *)
Theorem hdu_fields_returns_ttypes (hdr : header) (n : Z) :
  hdr_get hdr "TFIELDS" = Ok (CInt n) ->
  (forall fd, (1 <= fd <= Z.to_nat n)%nat ->
              exists v, hdr_get hdr (ttype fd) = Ok v) ->
  exists fields,
    hdu_fields module_globals hdr = inl fields /\
    length fields = Z.to_nat n /\
    forall fd, (1 <= fd <= Z.to_nat n)%nat ->
               hdr_get hdr (ttype fd) = Ok (nth (fd - 1) fields (CInt 0)).
Proof.
  intros Hn Hall.
  destruct (hdu_fields_loop_complete hdr (seq 1 (Z.to_nat n)) [])
    as (vals & Hrun & Hvals).
  { intros fd Hfd. apply in_seq in Hfd. apply Hall. lia. }
  exists vals. unfold hdu_fields. rewrite Hn, Hrun. cbn [app].
  split; [reflexivity|].
  pose proof (Forall2_length Hvals) as Hlen. rewrite length_seq in Hlen.
  split; [now symmetry|].
  intros fd Hfd.
  assert (Hnth : nth_error (seq 1 (Z.to_nat n)) (fd - 1) = Some fd).
  { rewrite nth_error_nth' with (d := 0%nat) by (rewrite length_seq; lia).
    rewrite seq_nth by lia. f_equal. lia. }
  destruct (Forall2_nth_error_l _ _ _ _ _ Hvals Hnth) as (v & Hv & Hget).
  rewrite Hget. f_equal. symmetry. now apply nth_error_nth.
Qed.

Lemma hdu_fields_returns_ttypes_witness :
  hdu_fields module_globals
    [("TFIELDS", CInt 3); ("TTYPE1", CStr "Antenna");
     ("TTYPE2", CStr "TileName"); ("TTYPE3", CStr "Flag")]%string
  = inl [CStr "Antenna"; CStr "TileName"; CStr "Flag"].
Proof.
  destruct (hdu_fields_returns_ttypes
              [("TFIELDS", CInt 3); ("TTYPE1", CStr "Antenna");
               ("TTYPE2", CStr "TileName"); ("TTYPE3", CStr "Flag")]%string
              3 eq_refl) as (fields & Hrun & _).
  - intros [|[|[|[|fd]]]] Hfd; try (cbn in Hfd; lia); eexists; reflexivity.
  - rewrite Hrun. vm_compute in Hrun. injection Hrun as <-. reflexivity.
Defined.

(** X15.  [hdu_fields] on a header that lacks TFIELDS, or one of the
    keywords TTYPE1 .. TTYPEn that TFIELDS announces: the handler of the
    KeyError formats its warning with [hdu_name], a name that nothing
    defines, so the call ends with NameError; the fields read before
    the missing keyword are not returned. *)
Theorem hdu_fields_missing_keyword_name_error (hdr : header) :
  (exists e, hdr_get hdr "TFIELDS" = Raise e) \/
  (exists n fd e, hdr_get hdr "TFIELDS" = Ok (CInt n) /\
                  (1 <= fd <= Z.to_nat n)%nat /\
                  hdr_get hdr (ttype fd) = Raise e) ->
  hdu_fields module_globals hdr = inr (NameError "hdu_name").
Proof.
  intros [(e & He) | (n & fd & e & Hn & Hfd & He)]; unfold hdu_fields.
  - rewrite He. apply hdr_get_raise in He. subst e. reflexivity.
  - rewrite Hn.
    destruct (hdu_fields_loop_missing hdr (seq 1 (Z.to_nat n)) [] fd e)
      as (fields & key & ->); [apply in_seq; lia | exact He |].
    reflexivity.
Qed.

Lemma hdu_fields_missing_keyword_name_error_witness :
  hdu_fields module_globals
    [("TFIELDS", CInt 3); ("TTYPE1", CStr "Antenna");
     ("TTYPE3", CStr "Flag")]%string
  = inr (NameError "hdu_name").
Proof.
  apply hdu_fields_missing_keyword_name_error. right.
  exists 3%Z, 2%nat, (KeyError "TTYPE2"). split; [reflexivity|].
  split; [cbn; lia | reflexivity].
Defined.

(** ** The gains of a receiver *)

Import Receiver.

Lemma gains_for_antnum_in_range
  (self : obj) (g : loc) (h : heap) (a : GainArray) (nant : nat) (antnum : Z) :
  getattr self "gain_array" = Ok (VArray g) ->
  nth_error h g = Some a ->
  Forall (fun tb : Timeblock => length tb = nant) a ->
  (- Z.of_nat nant <= antnum < Z.of_nat nant)%Z ->
  gains_for_antnum self antnum h =
  (Ok (map (fun tb : Timeblock =>
              nth (Z.to_nat (antnum mod Z.of_nat nant)) tb []) a), h).
Proof.
  intros Hattr Hderef Hall Hi.
  rewrite gains_for_antnum_run. unfold bindM, attr_array, lift, deref.
  rewrite Hattr. cbn [Py.bind as_array]. rewrite Hderef. cbn [fst Py.bind].
  unfold gains_ind_for. f_equal. clear Hderef.
  induction Hall as [|tb a' Htb _ IH]; [reflexivity|].
  cbn [mapM map]. rewrite (getitem_in_range tb antnum []) by (rewrite Htb; lia).
  cbn [Py.bind]. rewrite IH, Htb. reflexivity.
Qed.

Lemma gains_for_antnum_outside
  (self : obj) (g : loc) (h : heap) (a : GainArray) (nant : nat) (antnum : Z) :
  getattr self "gain_array" = Ok (VArray g) ->
  nth_error h g = Some a ->
  Forall (fun tb : Timeblock => length tb = nant) a ->
  a <> [] ->
  ~ (- Z.of_nat nant <= antnum < Z.of_nat nant)%Z ->
  gains_for_antnum self antnum h = (Raise IndexError, h).
Proof.
  intros Hattr Hderef Hall Hne Hi.
  rewrite gains_for_antnum_run. unfold bindM, attr_array, lift, deref.
  rewrite Hattr. cbn [Py.bind as_array]. rewrite Hderef. cbn [fst Py.bind].
  unfold gains_ind_for. f_equal.
  destruct Hall as [|tb a' Htb _]; [congruence|].
  cbn [mapM]. rewrite getitem_outside by (rewrite Htb; lia).
  reflexivity.
Qed.

Lemma repeat_map_const {A B} (x : B) (l : list A) :
  repeat x (length l) = map (fun _ => x) l.
Proof. induction l as [|y l IH]; cbn; [reflexivity|]. now rewrite IH. Qed.

Section ReceiverLoop.

Variable self : obj.
Variable g : loc.
Variable h : heap.
Variable a : GainArray.
Hypothesis Hattr : getattr self "gain_array" = Ok (VArray g).
Hypothesis Hderef : nth_error h g = Some a.
Hypothesis a_shape : has_shape (shape3 a) a.

Let n1 : nat := snd (fst (shape3 a)).
Let n2 : nat := snd (shape3 a).

(** The gains of antenna [an] in timeblock [tb]. *)
Let sel (tb : Timeblock) (an : Z) : Tile :=
  nth (Z.to_nat (an mod Z.of_nat n1)) tb [].

Let in_range (an : Z) : Prop := (- Z.of_nat n1 <= an < Z.of_nat n1)%Z.

Lemma shape_timeblocks : Forall (fun tb : Timeblock => length tb = n1) a.
Proof.
  destruct a_shape as (_ & Hall). eapply Forall_impl; [|exact Hall].
  cbn. intros tb (H & _). exact H.
Qed.

Lemma length_sel (tb : Timeblock) (an : Z) :
  In tb a -> in_range an -> length (sel tb an) = n2.
Proof.
  intros Htb Han. destruct a_shape as (_ & Hall).
  rewrite Forall_forall in Hall. destruct (Hall tb Htb) as (Hlen & Htiles).
  rewrite Forall_forall in Htiles. apply Htiles. unfold sel.
  apply nth_In. fold n1 in Hlen. rewrite Hlen. unfold in_range in Han.
  assert (0 <= an mod Z.of_nat n1 < Z.of_nat n1)%Z
    by (apply Z.mod_pos_bound; lia).
  lia.
Qed.

Lemma set_antenna_step (pre : list Z) (an : Z) (k : nat) :
  in_range an ->
  set_antenna
    (map (fun tb => map (sel tb) pre ++ repeat (repeat jzeros n2) (S k)) a)
    (length pre) (map (fun tb => sel tb an) a)
  = Ok (map (fun tb => map (sel tb) (pre ++ [an]) ++ repeat (repeat jzeros n2) k)
            a).
Proof.
  intros Han. unfold set_antenna. rewrite !length_map, Nat.eqb_refl.
  cbn [andb].
  assert (Hcheck :
    forallb (fun '(tb, tile) =>
               match nth_error tb (length pre) with
               | Some old => (length tile =? length old)%nat
               | None => false
               end)
            (combine (map (fun tb => map (sel tb) pre
                                     ++ repeat (repeat jzeros n2) (S k)) a)
                     (map (fun tb => sel tb an) a)) = true).
  { rewrite combine_map_map. rewrite forallb_map_comp.
    apply forallb_forall. intros tb Htb.
    rewrite nth_error_app2 by (rewrite length_map; lia).
    rewrite length_map, Nat.sub_diag. cbn [repeat nth_error].
    rewrite repeat_length, (length_sel tb an Htb Han). apply Nat.eqb_refl. }
  match goal with
  | |- (if forallb ?f ?l then _ else _) = _ =>
      replace (forallb f l) with true by (symmetry; exact Hcheck)
  end.
  f_equal. rewrite map2_map_map. apply map_ext. intros tb.
  cbn [repeat].
  rewrite <- (length_map (sel tb) pre). rewrite update_app_here.
  rewrite map_app, <- app_assoc. reflexivity.
Qed.

Lemma fill_receiver_spec (ans pre : list Z) :
  Forall in_range ans ->
  fill_receiver self (length pre) ans
    (map (fun tb => map (sel tb) pre
                    ++ repeat (repeat jzeros n2) (length ans)) a) h
  = (Ok (map (fun tb => map (sel tb) (pre ++ ans)) a), h).
Proof.
  revert pre. induction ans as [|an ans IH]; intros pre Hall.
  - cbn [fill_receiver length repeat]. unfold ret. f_equal. f_equal.
    apply map_ext. intros tb. now rewrite !app_nil_r.
  - inversion Hall as [|? ? Han Hall']; subst.
    cbn [fill_receiver length]. unfold bindM at 1.
    rewrite (gains_for_antnum_in_range self g h a n1 an Hattr Hderef
               shape_timeblocks Han).
    unfold bindM, lift.
    change (map (fun tb : Timeblock =>
                   nth (Z.to_nat (an mod Z.of_nat n1)) tb []) a)
      with (map (fun tb => sel tb an) a).
    rewrite (set_antenna_step pre an (length ans) Han).
    replace (S (length pre)) with (length (pre ++ [an]))
      by (rewrite length_app; cbn; lia).
    rewrite IH by exact Hall'. rewrite <- app_assoc. reflexivity.
Qed.

Lemma fill_receiver_raises (ans pre : list Z) :
  a <> [] ->
  Exists (fun an => ~ in_range an) ans ->
  fill_receiver self (length pre) ans
    (map (fun tb => map (sel tb) pre
                    ++ repeat (repeat jzeros n2) (length ans)) a) h
  = (Raise IndexError, h).
Proof.
  intros Hne. revert pre. induction ans as [|an ans IH]; intros pre Hex;
    [inversion Hex|].
  cbn [fill_receiver length]. unfold bindM at 1.
  assert (Hdec : in_range an \/ ~ in_range an) by (unfold in_range; lia).
  destruct Hdec as [Han|Han].
  - rewrite (gains_for_antnum_in_range self g h a n1 an Hattr Hderef
               shape_timeblocks Han).
    unfold bindM, lift.
    change (map (fun tb : Timeblock =>
                   nth (Z.to_nat (an mod Z.of_nat n1)) tb []) a)
      with (map (fun tb => sel tb an) a).
    rewrite (set_antenna_step pre an (length ans) Han).
    replace (S (length pre)) with (length (pre ++ [an]))
      by (rewrite length_app; cbn; lia).
    apply IH. inversion Hex; subst; [contradiction | assumption].
  - rewrite (gains_for_antnum_outside self g h a n1 an Hattr Hderef
               shape_timeblocks Hne Han).
    reflexivity.
Qed.

End ReceiverLoop.

(** X16.  [gains_for_receiver] stacks the gains of the receiver's
    antennas: with a metafits path, on a rectangular gain array, for a
    receiver whose antenna numbers (at least one) are all in
    [-Nant, Nant), the result has, in every timeblock and in the order of
    the receiver's list, the gains of each listed antenna, a negative
    number counting from the last antenna.  The stored arrays are left as
    they are and nothing is raised. *)
Theorem gains_for_receiver_stacks
  (annumbers_for_receiver : Z -> result (list Z))
  (self : obj) (g : loc) (h : heap) (a : GainArray)
  (receiver : Z) (annumbers : list Z) (p : value) :
  getattr self "metafits_path" = Ok p -> p <> VNone ->
  getattr self "gain_array" = Ok (VArray g) ->
  nth_error h g = Some a ->
  has_shape (shape3 a) a ->
  annumbers_for_receiver receiver = Ok annumbers ->
  annumbers <> [] ->
  Forall (fun an => (- Z.of_nat (snd (fst (shape3 a))) <= an
                     < Z.of_nat (snd (fst (shape3 a))))%Z) annumbers ->
  gains_for_receiver annumbers_for_receiver self receiver h =
  (Ok (map (fun tb : Timeblock =>
              map (fun an => nth (Z.to_nat (an mod Z.of_nat (length tb))) tb [])
                  annumbers) a), h).
Proof.
  intros Hp Hnone Hattr Hderef Hshape Hans Hne Hall.
  destruct annumbers as [|an0 ans]; [congruence|].
  pose proof (shape_timeblocks a Hshape) as Hn1.
  inversion Hall as [|? ? Han0 _]; subst.
  unfold gains_for_receiver, bindM at 1, lift at 1. rewrite Hp.
  unfold bindM at 1, lift at 1.
  replace (match p with VNone => Raise AssertionError | _ => Ok tt end)
    with (@Ok unit tt) by (destruct p; congruence).
  unfold bindM at 1, lift at 1. rewrite Hans.
  unfold bindM at 1, lift at 1.
  change (getitem (an0 :: ans) 0) with (@Ok Z an0).
  unfold bindM at 1.
  rewrite (gains_for_antnum_in_range self g h a _ an0 Hattr Hderef Hn1 Han0).
  cbv zeta. cbn [fst snd]. rewrite length_map.
  assert (Hhd : length (hd [] (map (fun tb : Timeblock =>
                  nth (Z.to_nat (an0 mod Z.of_nat (snd (fst (shape3 a))))) tb [])
                  a)) = snd (shape3 a)).
  { destruct a as [|tb0 a'].
    - cbn in Han0. lia.
    - cbn [map hd]. apply (length_sel (tb0 :: a') Hshape tb0 an0);
        [now left | exact Han0]. }
  rewrite Hhd, repeat_map_const.
  pose proof (fill_receiver_spec self g h a Hattr Hderef Hshape
                (an0 :: ans) [] Hall) as Hfill.
  cbn [map app length] in Hfill.
  etransitivity; [exact Hfill|]. f_equal. f_equal.
  apply map_ext_in. intros tb Htb.
  rewrite Forall_forall in Hn1. now rewrite (Hn1 tb Htb).
Qed.

Lemma gains_for_receiver_stacks_witness :
  gains_for_receiver (fun _ => Ok [2; -3]%Z)
    (setattr Sample.self1 "metafits_path" (VStrs ["obs.metafits"%string]))
    1 [Sample.gains_identity_ref]
  = (Ok [ [ [Sample.m_singular; Sample.m_num]; [Sample.m_num; jnan] ] ],
     [Sample.gains_identity_ref]).
Proof.
  apply (gains_for_receiver_stacks (fun _ => Ok [2; -3]%Z)
           (setattr Sample.self1 "metafits_path" (VStrs ["obs.metafits"%string]))
           0%nat [Sample.gains_identity_ref] Sample.gains_identity_ref
           1%Z [2; -3]%Z (VStrs ["obs.metafits"%string])).
  - reflexivity.
  - discriminate.
  - reflexivity.
  - reflexivity.
  - split; [reflexivity|]. repeat constructor.
  - reflexivity.
  - discriminate.
  - repeat constructor; cbn; lia.
Defined.

(** X17.  What [gains_for_receiver] raises.  With [metafits_path] None
    the assertion fails before anything is read.  With a path, on a
    rectangular gain array that has a timeblock: a receiver with no
    antenna raises IndexError at [annumbers[0]], and so does a receiver
    one of whose antenna numbers is outside [-Nant, Nant); the stored
    arrays are left as they are. *)
Theorem gains_for_receiver_raises
  (annumbers_for_receiver : Z -> result (list Z))
  (self : obj) (g : loc) (h : heap) (a : GainArray)
  (receiver : Z) (annumbers : list Z) (p : value) :
  getattr self "metafits_path" = Ok p ->
  getattr self "gain_array" = Ok (VArray g) ->
  nth_error h g = Some a ->
  has_shape (shape3 a) a -> a <> [] ->
  annumbers_for_receiver receiver = Ok annumbers ->
  (p = VNone ->
   gains_for_receiver annumbers_for_receiver self receiver h
   = (Raise AssertionError, h)) /\
  (p <> VNone ->
   annumbers = [] \/
   Exists (fun an => ~ (- Z.of_nat (snd (fst (shape3 a))) <= an
                        < Z.of_nat (snd (fst (shape3 a))))%Z) annumbers ->
   gains_for_receiver annumbers_for_receiver self receiver h
   = (Raise IndexError, h)).
Proof.
  intros Hp Hattr Hderef Hshape Hne Hans. split.
  - intros ->. unfold gains_for_receiver, bindM at 1, lift at 1.
    rewrite Hp. reflexivity.
  - intros Hnone Hbad.
    unfold gains_for_receiver, bindM at 1, lift at 1. rewrite Hp.
    unfold bindM at 1, lift at 1.
    replace (match p with VNone => Raise AssertionError | _ => Ok tt end)
      with (@Ok unit tt) by (destruct p; congruence).
    unfold bindM at 1, lift at 1. rewrite Hans.
    unfold bindM at 1, lift at 1.
    destruct annumbers as [|an0 ans]; [reflexivity|].
    destruct Hbad as [Hnil|Hex]; [discriminate|].
    change (getitem (an0 :: ans) 0) with (@Ok Z an0).
    unfold bindM at 1.
    pose proof (shape_timeblocks a Hshape) as Hn1.
    assert (Hdec : (- Z.of_nat (snd (fst (shape3 a))) <= an0
                    < Z.of_nat (snd (fst (shape3 a))))%Z \/
                   ~ (- Z.of_nat (snd (fst (shape3 a))) <= an0
                      < Z.of_nat (snd (fst (shape3 a))))%Z) by lia.
    destruct Hdec as [Han0|Han0].
    + rewrite (gains_for_antnum_in_range self g h a _ an0 Hattr Hderef Hn1 Han0).
      cbv zeta. cbn [fst snd]. rewrite length_map.
      assert (Hhd : length (hd [] (map (fun tb : Timeblock =>
                      nth (Z.to_nat (an0 mod Z.of_nat (snd (fst (shape3 a))))) tb [])
                      a)) = snd (shape3 a)).
      { destruct a as [|tb0 a']; [congruence|].
        cbn [map hd]. apply (length_sel (tb0 :: a') Hshape tb0 an0);
          [now left | exact Han0]. }
      rewrite Hhd, repeat_map_const.
      exact (fill_receiver_raises self g h a Hattr Hderef Hshape
               (an0 :: ans) [] Hne Hex).
    + rewrite (gains_for_antnum_outside self g h a _ an0 Hattr Hderef Hn1
                 Hne Han0).
      reflexivity.
Qed.

Lemma gains_for_receiver_raises_witness :
  gains_for_receiver (fun _ => Ok [2; 3]%Z)
    (setattr Sample.self1 "metafits_path" (VStrs ["obs.metafits"%string]))
    1 [Sample.gains_identity_ref]
  = (Raise IndexError, [Sample.gains_identity_ref]).
Proof.
  destruct (gains_for_receiver_raises (fun _ => Ok [2; 3]%Z)
           (setattr Sample.self1 "metafits_path" (VStrs ["obs.metafits"%string]))
           0%nat [Sample.gains_identity_ref] Sample.gains_identity_ref
           1%Z [2; 3]%Z (VStrs ["obs.metafits"%string])) as (_ & H).
  - reflexivity.
  - reflexivity.
  - reflexivity.
  - split; [reflexivity|]. repeat constructor.
  - discriminate.
  - reflexivity.
  - apply H; [discriminate|]. right. right. left. cbn. lia.
Defined.

(** ** The default output path *)

Import WriteTo.

Lemma prefix_app (old s : string) :
  String.prefix old s = true -> exists suf, s = String.append old suf.
Proof.
  revert s. induction old as [|a old IH]; intros s; cbn [String.prefix].
  - intros _. exists s. reflexivity.
  - destruct s as [|b s]; cbn [String.prefix]; [discriminate|].
    destruct (Ascii.ascii_dec a b) as [->|]; [|discriminate].
    intros H. destruct (IH s H) as (suf & ->). exists suf. reflexivity.
Qed.

Lemma length_string_append (s s' : string) :
  String.length (String.append s s') = (String.length s + String.length s')%nat.
Proof. induction s as [|c s IH]; cbn; [reflexivity|]. now rewrite IH. Qed.

(** X18.  [write_to()] with no [outfile], on a calibration path in which
    [.fits] does not occur: [str.replace] finds nothing to replace, and
    the path handed to the writer is the calibration path itself. *)
Theorem write_to_default_without_fits (calfits_path : string) :
  (forall pre suf,
     calfits_path <> String.append pre (String.append ".fits" suf)) ->
  write_to_outfile calfits_path None = calfits_path.
Proof.
  unfold write_to_outfile, replace.
  induction calfits_path as [|c s IH]; intros Hno; [reflexivity|].
  cbn [replace_from].
  destruct (String.prefix ".fits" (String c s)) eqn:E.
  - destruct (prefix_app _ _ E) as (suf & Hs).
    exfalso. apply (Hno EmptyString suf). exact Hs.
  - f_equal. apply IH. intros pre suf Hs.
    apply (Hno (String c pre) suf). cbn [String.append]. now rewrite Hs.
Qed.

Lemma write_to_default_without_fits_witness :
  write_to_outfile "hyp_soln" None = "hyp_soln"%string.
Proof.
  apply write_to_default_without_fits. intros pre suf H.
  assert (Hlen : String.length "hyp_soln"
                 = String.length (String.append pre (String.append ".fits" suf)))
    by (rewrite <- H; reflexivity).
  clear Hlen.
  destruct pre as [|c0 [|c1 [|c2 [|c3 [|c4 [|c5 [|c6 [|c7 pre]]]]]]]];
    cbn in H; try discriminate H.
  injection H as _ _ _ _ _ _ _ _ H. destruct pre; discriminate H.
Defined.

(** X19.  [write_to()] with no [outfile], on a calibration path that
    ends in [.fits] and has no other occurrence of it: the path handed
    to the writer is the calibration path with the final [.fits]
    replaced by [_cal_metrics.json]. *)
Theorem write_to_default_with_fits (base : string) :
  (forall pre suf,
     String.append base ".fits"
     = String.append pre (String.append ".fits" suf) ->
     suf = EmptyString) ->
  write_to_outfile (String.append base ".fits") None
  = String.append base "_cal_metrics.json".
Proof.
  unfold write_to_outfile, replace.
  induction base as [|c s IH]; intros Hone; [reflexivity|].
  cbn [String.append replace_from].
  destruct (String.prefix ".fits" (String c (String.append s ".fits"))) eqn:E.
  - destruct (prefix_app _ _ E) as (suf & Hs).
    pose proof (Hone EmptyString suf Hs) as ->.
    exfalso. apply (f_equal String.length) in Hs.
    cbn [String.length String.append] in Hs.
    rewrite length_string_append in Hs. cbn in Hs. lia.
  - f_equal. apply IH. intros pre suf Hs.
    apply (Hone (String c pre) suf). cbn [String.append]. now rewrite Hs.
Qed.

Lemma write_to_default_with_fits_witness :
  write_to_outfile "hyp_soln.fits" None = "hyp_soln_cal_metrics.json"%string.
Proof.
  apply (write_to_default_with_fits "hyp_soln"). intros pre suf H.
  destruct pre as [|c0 [|c1 [|c2 [|c3 [|c4 [|c5 [|c6 [|c7 [|c8 pre]]]]]]]]];
    cbn in H; try discriminate H; try (injection H; intros; congruence).
  exfalso. apply (f_equal String.length) in H.
  cbn [String.length String.append] in H.
  rewrite length_string_append in H. cbn in H. lia.
Defined.

(** ** Real and imaginary parts joined *)

Import Solutions.

Lemma stride2_pairs {A} (d : A) (n : nat) (row : list A) :
  length row = (2 * n)%nat ->
  length (stride2 row) = n /\ length (stride2 (tl row)) = n /\
  forall k, (k < n)%nat ->
    nth k (stride2 row) d = nth (2 * k) row d /\
    nth k (stride2 (tl row)) d = nth (2 * k + 1) row d.
Proof.
  revert row. induction n as [|n IH]; intros row Hlen.
  - destruct row; [|discriminate]. repeat split; intros; lia.
  - destruct row as [|x [|y row]]; try (cbn in Hlen; lia).
    destruct (IH row) as (H1 & H2 & Hk); [cbn in Hlen; lia|].
    cbn [stride2 tl length].
    assert (Htl : forall r : list A,
              match r with [] => [] | _ :: l'' => stride2 l'' end
              = stride2 (tl r)) by (intros [|? ?]; reflexivity).
    rewrite Htl. split; [lia|]. split; [lia|].
    intros [|k] Hlt; [split; reflexivity|].
    destruct (Hk k) as (Ha & Hb); [lia|].
    replace (2 * S k)%nat with (S (S (2 * k))) by lia.
    replace (S (S (2 * k)) + 1)%nat with (S (S (2 * k + 1))) by lia.
    cbn [nth]. split; assumption.
Qed.

Lemma join_parts (r i : xnum) :
  cadd (of_real r) (cmul j (of_real i))
  = match i with
    | Some _ => Cx r i
    | None => cnan
    end.
Proof.
  destruct r as [x|], i as [y|]; try reflexivity;
    unfold cadd, cmul, of_real, j, xadd, xsub, xmul, xlift2, xof; cbn;
    f_equal; f_equal; ring.
Qed.

(** X20.  Lines 55-56 on a last axis of [2 n] floats: the result has [n]
    complex gains, the k-th made of the floats at positions [2 k] (real
    part) and [2 k + 1] (imaginary part).  A NaN imaginary part makes
    the whole gain NaN, the product [1j * NaN] being NaN in both parts;
    a NaN real part leaves the imaginary part as it is. *)
Theorem join_re_im_pairs (n : nat) (row : list xnum) :
  length row = (2 * n)%nat ->
  exists out,
    join_re_im row = Ok out /\ length out = n /\
    forall k, (k < n)%nat ->
      nth k out cnan
      = match nth (2 * k + 1) row xnan with
        | Some i => Cx (nth (2 * k) row xnan) (Some i)
        | None => cnan
        end.
Proof.
  intros Hlen.
  destruct (stride2_pairs xnan n row Hlen) as (H1 & H2 & Hk).
  unfold join_re_im. cbv zeta. unfold broadcast2.
  rewrite length_map, H1, H2, Nat.eqb_refl.
  eexists. split; [reflexivity|].
  split; [rewrite length_map2; rewrite ?length_map; congruence|].
  intros k Hlt. destruct (Hk k Hlt) as (Ha & Hb).
  assert (Hre : nth_error (stride2 row) k = Some (nth (2 * k) row xnan)).
  { rewrite <- Ha. apply nth_error_nth'. lia. }
  assert (Him : nth_error (map (fun x => cmul j (of_real x)) (stride2 (tl row))) k
                = Some (cmul j (of_real (nth (2 * k + 1) row xnan)))).
  { rewrite nth_error_map, <- Hb.
    rewrite (nth_error_nth' _ xnan) by lia. reflexivity. }
  pose proof (nth_error_map2 (fun r c => cadd (of_real r) c) _ _ k _ _ Hre Him)
    as Hout.
  rewrite (nth_error_nth _ _ cnan Hout), join_parts.
  destruct (nth (2 * k + 1) row xnan); reflexivity.
Qed.

Lemma join_re_im_pairs_witness :
  join_re_im [xof 1; xof 0; xnan; xof 1; xof 1; xnan; xof 0; xof 1]
  = Ok [Cx (xof 1) (xof 0); Cx xnan (xof 1); cnan; Cx (xof 0) (xof 1)].
Proof.
  destruct (join_re_im_pairs 4
              [xof 1; xof 0; xnan; xof 1; xof 1; xnan; xof 0; xof 1] eq_refl)
    as (out & Hrun & Hlen & Hk).
  rewrite Hrun. f_equal.
  destruct out as [|o0 [|o1 [|o2 [|o3 [|o4 out]]]]]; try discriminate Hlen.
  pose proof (Hk 0%nat ltac:(lia)) as E0. pose proof (Hk 1%nat ltac:(lia)) as E1.
  pose proof (Hk 2%nat ltac:(lia)) as E2. pose proof (Hk 3%nat ltac:(lia)) as E3.
  cbn in E0, E1, E2, E3. subst. reflexivity.
Defined.

(** ** The variance array of the short baselines *)

(** X21.  [variance_for_baselines_less_than], when every pair's variance
    array has the shape (Ntime, 4): the result has one row per timeblock
    and, in it, one entry per baseline below the cut, in the order of the
    baseline list; the entry of timeblock [t] and baseline [i] is row [t]
    of the variance array of that pair. *)
Theorem variance_for_baselines_less_than_entries
  (self : engine) (uv_cut : float) :
  variances_shaped self uv_cut = true ->
  exists variances,
    variance_for_baselines_less_than self uv_cut = Ok variances /\
    length variances = Ntime self /\
    forall t row, nth_error variances t = Some row ->
      length row = length (baselines_less_than self uv_cut) /\
      forall i bl, nth_error (baselines_less_than self uv_cut) i = Some bl ->
        nth_error row i = Some (nth t (variance_for_antpair self bl) []).
Proof.
  intros Hsh.
  rewrite (variance_for_baselines_less_than_spec self uv_cut Hsh).
  eexists. split; [reflexivity|].
  split; [now rewrite length_map, length_seq|].
  intros t row Ht.
  destruct (nth_error_map_inv _ _ _ _ Ht) as (t' & Ht' & ->).
  assert (t' = t) as ->.
  { assert (Hlt : (t < length (seq 0 (Ntime self)))%nat)
      by (apply nth_error_Some; rewrite Ht'; discriminate).
    rewrite length_seq in Hlt.
    rewrite (nth_error_nth' _ 0%nat) in Ht' by (rewrite length_seq; lia).
    rewrite seq_nth in Ht' by lia. now injection Ht'. }
  split; [apply length_map|].
  intros i bl Hbl. rewrite nth_error_map, Hbl. reflexivity.
Qed.

Lemma variance_for_baselines_less_than_entries_witness :
  exists variances,
    variance_for_baselines_less_than SampleMetrics.eng 40 = Ok variances /\
    length variances = 2%nat.
Proof.
  destruct (variance_for_baselines_less_than_entries SampleMetrics.eng 40 eq_refl)
    as (v & Hrun & Hlen & _).
  exists v. split; [exact Hrun | exact Hlen].
Defined.

(** ** An antenna number that is not a position *)

Lemma getattr_init_tiles_gain_array (t : tile_table) (self0 : obj) :
  getattr (init_tiles t self0) "gain_array" = getattr self0 "gain_array".
Proof.
  unfold init_tiles.
  destruct (has_field "Antenna" (tile_fields t)),
           (has_field "TileName" (tile_fields t)),
           (has_field "Flag" (tile_fields t)); reflexivity.
Qed.

(** X23.  The constructor uses the number found in the Antenna column as
    a position on the antenna axis of the gain array.  With
    [norm=True] and no reference antenna given, when the number of the
    last unflagged row is outside [-Nant, Nant) (a table whose numbers
    are not the positions 0 .. Nant-1), the constructor raises
    IndexError at the first timeblock. *)
Theorem init_auto_reference_number_as_index
  (fuel : nat) (hd : hdus) (h : heap) (row : tile_row)
  (data : Timeblock) (rest : GainArray) :
  has_field "Antenna" (tile_fields (TILES hd)) = true ->
  has_field "Flag" (tile_fields (TILES hd)) = true ->
  find unflagged (rev (tile_data (TILES hd))) = Some row ->
  (length (tile_data (TILES hd)) < fuel)%nat ->
  SOLUTIONS hd = data :: rest ->
  (t_antenna row < - Z.of_nat (length data)
   \/ Z.of_nat (length data) <= t_antenna row)%Z ->
  exists cur,
    __init__ fuel hd true None h
    = Some (Raise IndexError, h ++ [SOLUTIONS hd; cur]).
Proof.
  intros Ha Hf Hfind Hfuel Hsol Hout. unfold __init__. cbv zeta.
  unfold _iterate_refant.
  change (-1)%Z with (- 1 - Z.of_nat (length (@nil tile_row)))%Z.
  rewrite (iterate_refant_loop_scan _ (tile_data (TILES hd)))
    with (pre := tile_data (TILES hd)).
  2:{ destruct (TILES hd) as [fields rows]. cbn [tile_fields tile_data] in *.
      cbn [getattr setattr String.eqb Ascii.eqb Bool.eqb].
      now apply getattr_init_tiles_flags. }
  2:{ destruct (TILES hd) as [fields rows]. cbn [tile_fields tile_data] in *.
      cbn [getattr setattr String.eqb Ascii.eqb Bool.eqb].
      now apply getattr_init_tiles_antenna. }
  2:{ now rewrite app_nil_r. }
  2:{ exact Hfuel. }
  rewrite Hfind.
  match goal with
  | |- context [normalized_gains ?s _] => set (self := s)
  end.
  assert (Hattr : getattr self "gain_array" = Ok (VArray (length h))).
  { unfold self. cbn [getattr setattr String.eqb Ascii.eqb Bool.eqb].
    rewrite getattr_init_tiles_gain_array. reflexivity. }
  assert (Href : getattr self "ref_antenna" = Ok (VInt (t_antenna row)))
    by reflexivity.
  assert (Hderef : nth_error (h ++ [SOLUTIONS hd]) (length h)
                   = Some (SOLUTIONS hd)).
  { rewrite nth_error_app2, Nat.sub_diag by lia. reflexivity. }
  destruct (normalized_gains_run self (length h) (h ++ [SOLUTIONS hd])
              (SOLUTIONS hd) Hattr Hderef) as (cur & Hrun & _).
  assert (Hdata : _normalized_data self data = Raise IndexError).
  { unfold _normalized_data, _normalized_data_over. rewrite Href. cbn [Py.bind as_int].
    unfold gains_ind_for. now rewrite getitem_outside. }
  rewrite Hrun, Hsol. cbn [mapM]. rewrite Hdata. cbn [Py.bind].
  exists cur. now rewrite <- app_assoc.
Qed.

Lemma init_auto_reference_number_as_index_witness :
  exists cur,
    __init__ 4
      {| SOLUTIONS := Sample.gains_identity_ref;
         TILES :=
           {| tile_fields := ["Antenna"; "TileName"; "Flag"]%string;
              tile_data :=
                [ {| t_antenna := 1; t_tilename := "Tile011"; t_flag := 0 |};
                  {| t_antenna := 2; t_tilename := "Tile012"; t_flag := 0 |};
                  {| t_antenna := 3; t_tilename := "Tile013"; t_flag := 0 |} ]
           |} |}
      true None []
    = Some (Raise IndexError, [Sample.gains_identity_ref; cur]).
Proof.
  apply (init_auto_reference_number_as_index 4
           {| SOLUTIONS := Sample.gains_identity_ref;
              TILES :=
                {| tile_fields := ["Antenna"; "TileName"; "Flag"]%string;
                   tile_data :=
                     [ {| t_antenna := 1; t_tilename := "Tile011"; t_flag := 0 |};
                       {| t_antenna := 2; t_tilename := "Tile012"; t_flag := 0 |};
                       {| t_antenna := 3; t_tilename := "Tile013"; t_flag := 0 |} ]
                |} |}
           []
           {| t_antenna := 3; t_tilename := "Tile013"; t_flag := 0 |}
           [[Sample.m_num; jnan]; [jidentity; jidentity];
            [Sample.m_singular; Sample.m_num]] []).
  - reflexivity.
  - reflexivity.
  - reflexivity.
  - cbn. lia.
  - reflexivity.
  - right. cbn. lia.
Defined.
